(** * Fork choice, block persistence and gossip validation of the beacon node

    A shallow embedding of
    - [beacon-chain/db/kv] block accessors ([Block], [HeadBlock], [Blocks],
      [BlockRoots], [HasBlock], [SaveBlock], [SaveBlocks], [DeleteBlock],
      [SaveHeadBlockRoot]),
    - [beacon-chain/blockchain/forkchoice] ([GenesisStore], [ancestor],
      [latestAttestingBalance], [Head], [OnBlock] and its four checks),
    - [beacon-chain/sync] ([validateProposerSlashing]),
    - the canonical roots of the deprecated chain service
      ([UpdateCanonicalRoots], [IsCanonical]),
    - the length-delimited network encoder ([Encode], [Decode]),
    followed by the properties of the specification checked against them
    and by further properties read off the code.

    Conventions.  A Go byte slice is a [string] (a sequence of 8-bit
    characters); a [nil] slice is [None] where the code tests for it and the
    empty string where it only compares contents.  A [uint64] is a [Z] and
    every arithmetic operation on it is wrapped with [u64].  A nullable
    pointer is an [option].  A bolt bucket is a finite map. *)

From stdpp Require Import gmap strings list fin_maps sorting.
From Stdlib Require Import ZArith Lia.
From Stdlib Require OrderedTypeEx.

Local Open Scope Z_scope.

(** ** Bytes and machine integers *)

Definition u64 (z : Z) : Z := z mod 2 ^ 64.

(** The first [n] bytes of [s] followed by zero bytes, [n] bytes in all. *)
Fixpoint padTo (n : nat) (s : string) : string :=
  match n with
  | O => EmptyString
  | S n' =>
      match s with
      | EmptyString => String Ascii.zero (padTo n' EmptyString)
      | String c s' => String c (padTo n' s')
      end
  end.

(** Modelled from the spec: [bytesutil.ToBytes32] is not among the sources.
    Roots are fixed-width 32-byte keys (spec, persisted state layout), so a
    byte slice is truncated or right-padded with zero bytes to 32 bytes. *)
Definition ToBytes32 (x : string) : string := padTo 32 x.

(** [bytes.Equal] on two slices, either of which may be [nil]. *)
Definition sliceBytes (o : option string) : string := default EmptyString o.

Definition bytesEqual (a b : string) : bool := bool_decide (a = b).

(** [bytes.Compare a b > 0]: lexicographic order on unsigned bytes. *)
Definition bytesGreater (a b : string) : bool :=
  match String.compare a b with
  | Gt => true
  | _ => false
  end.

(** ** Errors *)

Inductive Error : Type :=
| ErrCorruptEncoding          (* proto.Unmarshal failed *)
| ErrMissingPreState          (* "pre state of slot %d does not exist" *)
| ErrFutureSlot               (* "could not process block from the future" *)
| ErrNotDescendantOfFinalized (* "is not a descendent of the current finalized block" *)
| ErrBeforeFinalized          (* "block is equal or earlier than finalized block" *)
| ErrStateTransitionFailed    (* "could not execute state transition" *)
| ErrPanic                    (* nil dereference or index out of range *)
| ErrDiverged.                (* the recursion or loop did not return within the budget *)

Inductive result (A : Type) : Type :=
| Ok (a : A)
| Err (e : Error).
Arguments Ok {A} a.
Arguments Err {A} e.

#[global] Instance result_ret : MRet result := fun A a => Ok a.

#[global] Instance result_bind : MBind result := fun A B f r =>
  match r with
  | Ok a => f a
  | Err e => Err e
  end.

#[global] Instance Error_eq_dec : EqDecision Error.
Proof. solve_decision. Defined.

(** ** Protocol messages *)

Module ethpb.

Record BeaconBlock : Type := {
  Slot : Z;
  ParentRoot : string;
  StateRoot : string;
}.

Record Checkpoint : Type := {
  Epoch : Z;
  Root : string;
}.

Record Validator : Type := {
  EffectiveBalance : Z;
  ActivationEpoch : Z;
  ExitEpoch : Z;
}.

Record BeaconBlockHeader : Type := {
  HeaderSlot : Z;
  HeaderStateRoot : string;
  HeaderSignature : string;
}.

Record ProposerSlashing : Type := {
  ProposerIndex : Z;
  Header_1 : BeaconBlockHeader;
  Header_2 : BeaconBlockHeader;
}.

#[global] Instance BeaconBlock_eq_dec : EqDecision BeaconBlock.
Proof. solve_decision. Defined.

#[global] Instance Checkpoint_eq_dec : EqDecision Checkpoint.
Proof. solve_decision. Defined.

(** The value of [&ethpb.BeaconBlock{}]. *)
Definition emptyBlock : BeaconBlock :=
  {| Slot := 0; ParentRoot := EmptyString; StateRoot := EmptyString |}.

End ethpb.

Module pb.

Record ValidatorLatestVote : Type := {
  Epoch : Z;
  Root : string;
}.

Record BeaconState : Type := {
  GenesisTime : Z;
  Slot : Z;
  Validators : list ethpb.Validator;
  CurrentJustifiedCheckpoint : ethpb.Checkpoint;
  FinalizedCheckpoint : ethpb.Checkpoint;
}.

End pb.

(** ** External collaborators

    Hashing, the protobuf codec, the state transition and the chain
    parameters live outside the sources under study; the embedding is
    parametric in them. *)

Record Externals : Type := {
  SigningRoot : ethpb.BeaconBlock → string;             (* ssz.SigningRoot *)
  Marshal : ethpb.BeaconBlock → string;                 (* proto.Marshal *)
  Unmarshal : string → option ethpb.BeaconBlock;        (* proto.Unmarshal; None is a decoding error *)
  HashProto : ethpb.Checkpoint → string;                (* hashutil.HashProto *)
  HashTreeRoot : pb.BeaconState → string;               (* ssz.HashTreeRoot *)
  ExecuteStateTransition :
    pb.BeaconState → ethpb.BeaconBlock → option pb.BeaconState;
  SlotsPerEpoch : Z;                                    (* params.BeaconConfig() *)
  SecondsPerSlot : Z;
  headBlockRootKey : string;                            (* kv schema constant *)
}.

(** ** Package filters *)

Module filters.

(** Modelled from the spec: the [filters] package is not among the sources.
    A filter supports the criteria [parent_root = R] and
    [start_slot ≤ s ≤ end_slot]; each criterion is either absent or set
    ([Filters()] is a Go map from criterion to value). *)
Record QueryFilter : Type := {
  ParentRoot : option string;
  StartSlot : option Z;
  EndSlot : option Z;
}.

(** Modelled from the spec: a new filter has no criterion. *)
Definition NewFilter : QueryFilter :=
  {| ParentRoot := None; StartSlot := None; EndSlot := None |}.

(** Modelled from the spec: sets the criterion [parent_root = r]. *)
Definition SetParentRoot (r : string) (f : QueryFilter) : QueryFilter :=
  {| ParentRoot := Some r; StartSlot := StartSlot f; EndSlot := EndSlot f |}.

(** Modelled from the spec: sets the lower bound of the slot range. *)
Definition SetStartSlot (slot : Z) (f : QueryFilter) : QueryFilter :=
  {| ParentRoot := ParentRoot f; StartSlot := Some slot; EndSlot := EndSlot f |}.

(** Modelled from the spec: sets the upper bound of the slot range. *)
Definition SetEndSlot (slot : Z) (f : QueryFilter) : QueryFilter :=
  {| ParentRoot := ParentRoot f; StartSlot := StartSlot f; EndSlot := Some slot |}.

End filters.

(** ** Package sliceutil *)

Module sliceutil.

(** Modelled from the spec: [IntersectionByteSlices] is not among the
    sources.  It keeps the elements common to all the given candidate sets
    (none when no set is given). *)
Definition IntersectionByteSlices (s : list (list string)) : list string :=
  match s with
  | [] => []
  | first :: rest => filter (fun x => Forall (fun l => x ∈ l) rest) first
  end.

(** Modelled from the spec: [UnionByteSlices] is not among the sources.
    It collects the elements of any of the given sets, each once. *)
Definition UnionByteSlices (s : list (list string)) : list string :=
  remove_dups (concat s).

End sliceutil.

(** ** Bucket iteration

    bolt iterates a bucket in the byte order of its keys. *)

Section Cursor.
Context {K V : Type} (leb : K → K → bool).

Fixpoint insertEntry (e : K * V) (l : list (K * V)) : list (K * V) :=
  match l with
  | [] => [e]
  | e' :: l' => if leb e.1 e'.1 then e :: l else e' :: insertEntry e l'
  end.

Definition sortEntries (l : list (K * V)) : list (K * V) :=
  foldr insertEntry [] l.

(** [c.Seek(min)]: the entries from the first key not below [min]. *)
Fixpoint seekEntries (min : K) (l : list (K * V)) : list (K * V) :=
  match l with
  | [] => []
  | e :: l' => if leb min e.1 then l else seekEntries min l'
  end.

(** [c.Next()] while the key does not exceed [max]. *)
Fixpoint scanEntries (max : K) (l : list (K * V)) : list V :=
  match l with
  | [] => []
  | e :: l' => if leb e.1 max then e.2 :: scanEntries max l' else []
  end.

End Cursor.

(** ** Package kv: the bolt-backed store *)

Module kv.

(** One field per bucket.  [blocksBucket] and [validatorsBucket] hold raw
    bytes, as in bolt.  The index buckets and the state and vote buckets are
    written and read only through helpers that are not among the sources,
    so they are kept decoded. *)
Record Store : Type := {
  blocksBucket : gmap string string;
  validatorsBucket : gmap string string;
  parentRootIndicesBucket : gmap string (list string);
  blockSlotIndicesBucket : gmap Z (list string);
  stateBucket : gmap string pb.BeaconState;
  validatorLatestVoteBucket : gmap Z pb.ValidatorLatestVote;
}.

Definition emptyStore : Store :=
  {| blocksBucket := ∅; validatorsBucket := ∅;
     parentRootIndicesBucket := ∅; blockSlotIndicesBucket := ∅;
     stateBucket := ∅; validatorLatestVoteBucket := ∅ |}.

Definition putBlocksBucket (key enc : string) (k : Store) : Store :=
  {| blocksBucket := <[key := enc]> (blocksBucket k);
     validatorsBucket := validatorsBucket k;
     parentRootIndicesBucket := parentRootIndicesBucket k;
     blockSlotIndicesBucket := blockSlotIndicesBucket k;
     stateBucket := stateBucket k;
     validatorLatestVoteBucket := validatorLatestVoteBucket k |}.

(** Modelled from the spec: an index entry is the set of block roots filed
    under it (data model, indices owned by persistence); adding a root that
    is already there changes nothing. *)
Definition addRoot (root : string) (roots : list string) : list string :=
  if bool_decide (root ∈ roots) then roots else roots ++ [root].

(** Modelled from the spec: [updateValueForIndicesMap] is not among the
    sources.  [put_block] adds the block's root to the entry of its parent
    root in the parent-root index and to the entry of its slot in the slot
    index. *)
Definition updateValueForIndicesMap
    (parentIdx : string) (slotIdx : Z) (root : string) (k : Store) : Store :=
  {| blocksBucket := blocksBucket k;
     validatorsBucket := validatorsBucket k;
     parentRootIndicesBucket :=
       <[parentIdx := addRoot root (default [] (parentRootIndicesBucket k !! parentIdx))]>
         (parentRootIndicesBucket k);
     blockSlotIndicesBucket :=
       <[slotIdx := addRoot root (default [] (blockSlotIndicesBucket k !! slotIdx))]>
         (blockSlotIndicesBucket k);
     stateBucket := stateBucket k;
     validatorLatestVoteBucket := validatorLatestVoteBucket k |}.

(** Modelled from the spec: [State] is not among the sources;
    [get_state(root)] is an [Option<State>]. *)
Definition State (k : Store) (blockRoot : string) : option pb.BeaconState :=
  stateBucket k !! blockRoot.

(** Modelled from the spec: [SaveState] is not among the sources;
    [put_state(state, block_root)] files the state under the block root. *)
Definition SaveState (st : pb.BeaconState) (blockRoot : string) (k : Store) : Store :=
  {| blocksBucket := blocksBucket k;
     validatorsBucket := validatorsBucket k;
     parentRootIndicesBucket := parentRootIndicesBucket k;
     blockSlotIndicesBucket := blockSlotIndicesBucket k;
     stateBucket := <[blockRoot := st]> (stateBucket k);
     validatorLatestVoteBucket := validatorLatestVoteBucket k |}.

(** Modelled from the spec: [ValidatorLatestVote] is not among the sources;
    [get_latest_vote(validator_index)] is an [Option<Vote>]. *)
Definition ValidatorLatestVote (k : Store) (validatorIdx : Z)
  : option pb.ValidatorLatestVote :=
  validatorLatestVoteBucket k !! validatorIdx.

(** Modelled from the spec: [SaveValidatorLatestVote] is not among the
    sources; [put_latest_vote(validator_index, vote)] overwrites the entry
    of the validator. *)
Definition SaveValidatorLatestVote (validatorIdx : Z) (vote : pb.ValidatorLatestVote)
    (k : Store) : Store :=
  {| blocksBucket := blocksBucket k;
     validatorsBucket := validatorsBucket k;
     parentRootIndicesBucket := parentRootIndicesBucket k;
     blockSlotIndicesBucket := blockSlotIndicesBucket k;
     stateBucket := stateBucket k;
     validatorLatestVoteBucket := <[validatorIdx := vote]> (validatorLatestVoteBucket k) |}.

Section WithExternals.
Variable ext : Externals.

(** [proto.Unmarshal(enc, block)] into a fresh message. *)
Definition decodeBlock (enc : string) : result ethpb.BeaconBlock :=
  match Unmarshal ext enc with
  | Some b => Ok b
  | None => Err ErrCorruptEncoding
  end.

(** Block retrieval by root.  The result pointer is allocated before the
    lookup and returned as is when the key is absent. *)
Definition Block (k : Store) (blockRoot : string)
  : result (option ethpb.BeaconBlock) :=
  let block := ethpb.emptyBlock in
  match blocksBucket k !! blockRoot with
  | None => Ok (Some block)
  | Some enc => b ← decodeBlock enc ; Ok (Some b)
  end.

(** HeadBlock returns the latest canonical block. *)
Definition HeadBlock (k : Store) : result (option ethpb.BeaconBlock) :=
  let headBlock := ethpb.emptyBlock in
  let bkt := validatorsBucket k in
  match bkt !! headBlockRootKey ext with
  | None => Ok (Some headBlock)
  | Some headRoot =>
      match bkt !! headRoot with
      | None => Ok (Some headBlock)
      | Some enc => b ← decodeBlock enc ; Ok (Some b)
      end
  end.

(** HasBlock checks if a block by root exists in the db. *)
Definition HasBlock (k : Store) (blockRoot : string) : bool :=
  bool_decide (is_Some (blocksBucket k !! blockRoot)).

(** SaveBlock to the db.  The parent index key is the index prefix
    followed by the block's raw parent root, so it is determined by the
    raw parent root; the slot index key is the encoded slot. *)
Definition SaveBlock (block : ethpb.BeaconBlock) (k : Store) : Store :=
  let blockRoot := SigningRoot ext block in
  let enc := Marshal ext block in
  let k1 :=
    updateValueForIndicesMap (ethpb.ParentRoot block) (ethpb.Slot block) blockRoot k in
  putBlocksBucket blockRoot enc k1.

(** SaveBlocks via batch updates to the db. *)
Definition SaveBlocks (blocks : list ethpb.BeaconBlock) (k : Store) : Store :=
  foldl (fun acc b => SaveBlock b acc) k blocks.

(** SaveHeadBlockRoot to the db. *)
Definition SaveHeadBlockRoot (blockRoot : string) (k : Store) : Store :=
  putBlocksBucket (headBlockRootKey ext) blockRoot k.

(** createBlockIndicesFromFilters: only the parent-root criterion
    yields an index; every other criterion falls into the empty
    [default] case.  The result map has the parent-root bucket as its
    only possible key. *)
Definition createBlockIndicesFromFilters (f : filters.QueryFilter)
  : option string :=
  match filters.ParentRoot f with
  | Some parentRoot => Some parentRoot
  | None => None
  end.

(** Modelled from the spec: [lookupValuesForIndicesMap] is not among the
    sources.  For each index it yields the candidate set filed under it,
    empty when nothing is filed. *)
Definition lookupValuesForIndicesMap (k : Store) (indicesByBucket : option string)
  : list (list string) :=
  match indicesByBucket with
  | Some idx => [default [] (parentRootIndicesBucket k !! idx)]
  | None => []
  end.

(** The range scan of the slot index.  Modelled from the spec:
    [uint64ToBytes] is not among the sources; slot keys are 8-byte
    big-endian, so their byte order is the numeric order of the slots. *)
Definition slotRange (k : Store) (startSlot endSlot : Z) : list (list string) :=
  scanEntries Z.leb endSlot
    (seekEntries Z.leb startSlot
       (sortEntries Z.leb (map_to_list (blockSlotIndicesBucket k)))).

(** Blocks retrieves a list of beacon blocks by filter criteria. *)
Definition Blocks (k : Store) (f : option filters.QueryFilter)
  : result (list ethpb.BeaconBlock) :=
  let bkt := blocksBucket k in
  match f with
  | None =>
      mapM (fun kv => decodeBlock kv.2) (sortEntries String.leb (map_to_list bkt))
  | Some f =>
      let vals :=
        match filters.StartSlot f, filters.EndSlot f with
        | Some startSlot, Some endSlot => slotRange k startSlot endSlot
        | _, _ => []
        end in
      let indicesByBucket := createBlockIndicesFromFilters f in
      let indices := lookupValuesForIndicesMap k indicesByBucket in
      let keys :=
        if bool_decide (0 < length indices)%nat
        then sliceutil.IntersectionByteSlices
               (vals ++ lookupValuesForIndicesMap k indicesByBucket)
        else sliceutil.UnionByteSlices vals in
      mapM (fun key => decodeBlock (default EmptyString (bkt !! key))) keys
  end.

(** BlockRoots retrieves a list of beacon block roots by filter criteria. *)
Definition BlockRoots (k : Store) (f : option filters.QueryFilter)
  : result (list string) :=
  blocks ← Blocks k f;
  Ok (map (SigningRoot ext) blocks).

(** The signature of [deleteValueForIndicesMap], which is not among the
    sources: from the parent root and the slot of a block (which determine
    the index keys [DeleteBlock] builds) and the block's root it rewrites
    the two index buckets it is handed, or fails. *)
Definition IndexDeleter : Type :=
  string → Z → string →
  gmap string (list string) * gmap Z (list string) →
  result (gmap string (list string) * gmap Z (list string)).

(** DeleteBlock by block root.  The body runs in one bolt update
    transaction: when it returns an error nothing is written. *)
Definition DeleteBlock (deleteValueForIndicesMap : IndexDeleter)
    (blockRoot : string) (k : Store) : result Store :=
  match blocksBucket k !! blockRoot with
  | None => Ok k
  | Some enc =>
      block ← decodeBlock enc;
      indices ← deleteValueForIndicesMap (ethpb.ParentRoot block) (ethpb.Slot block)
                  blockRoot (parentRootIndicesBucket k, blockSlotIndicesBucket k);
      Ok {| blocksBucket := delete blockRoot (blocksBucket k);
            validatorsBucket := validatorsBucket k;
            parentRootIndicesBucket := indices.1;
            blockSlotIndicesBucket := indices.2;
            stateBucket := stateBucket k;
            validatorLatestVoteBucket := validatorLatestVoteBucket k |}
  end.

End WithExternals.

End kv.

(** ** Packages helpers and blocks *)

Module helpers.

Section WithExternals.
Variable ext : Externals.

(** Modelled from the spec: [helpers.StartSlot] is not among the sources.
    A slot is [epoch * SLOTS_PER_EPOCH + offset], so an epoch starts at slot
    [epoch * SLOTS_PER_EPOCH]. *)
Definition StartSlot (epoch : Z) : Z := u64 (epoch * SlotsPerEpoch ext).

(** Modelled from the spec: [helpers.CurrentEpoch] is not among the
    sources.  The epoch of a state is the epoch its slot lies in. *)
Definition CurrentEpoch (st : pb.BeaconState) : Z :=
  pb.Slot st / SlotsPerEpoch ext.

(** Modelled from the spec: [helpers.IsActiveValidator] is not among the
    sources.  A validator is active when its activation epoch ≤ current
    epoch < exit epoch. *)
Definition IsActiveValidator (v : ethpb.Validator) (epoch : Z) : bool :=
  (ethpb.ActivationEpoch v <=? epoch) && (epoch <? ethpb.ExitEpoch v).

(** Modelled from the spec: the indices of the active validators among
    [vs], the first of which has index [i]. *)
Fixpoint activeFrom (i : Z) (vs : list ethpb.Validator) (epoch : Z) : list Z :=
  match vs with
  | [] => []
  | v :: vs' =>
      if IsActiveValidator v epoch
      then i :: activeFrom (i + 1) vs' epoch
      else activeFrom (i + 1) vs' epoch
  end.

(** Modelled from the spec: [helpers.ActiveValidatorIndices] is not among
    the sources.  The indices of the validators of the state that are active
    in the epoch, in increasing order. *)
Definition ActiveValidatorIndices (st : pb.BeaconState) (epoch : Z) : list Z :=
  activeFrom 0 (pb.Validators st) epoch.

End WithExternals.

End helpers.

Module blocks.

(** Modelled from the spec: [NewGenesisBlock] is not among the sources.
    The genesis block has [slot = 0], [parent_root = 0] and the given
    state root. *)
Definition NewGenesisBlock (stateRoot : string) : ethpb.BeaconBlock :=
  {| ethpb.Slot := 0;
     ethpb.ParentRoot := ToBytes32 EmptyString;
     ethpb.StateRoot := stateRoot |}.

End blocks.

(** ** Package forkchoice *)

Module forkchoice.

(** The checkpoints are pointers in the source.  [justifiedCheckpt] is only
    ever reassigned and [finalizedCheckpt] points to the object allocated
    by [GenesisStore], which no other field refers to, so both are kept by
    value.  All functions but [GenesisStore] run after it has set them. *)
Record Store : Type := {
  db : kv.Store;
  justifiedCheckpt : ethpb.Checkpoint;
  finalizedCheckpt : ethpb.Checkpoint;
  checkptBlkRoot : gmap string string;
}.

Definition setDb (d : kv.Store) (s : Store) : Store :=
  {| db := d; justifiedCheckpt := justifiedCheckpt s;
     finalizedCheckpt := finalizedCheckpt s; checkptBlkRoot := checkptBlkRoot s |}.

Definition setJustifiedCheckpt (c : ethpb.Checkpoint) (s : Store) : Store :=
  {| db := db s; justifiedCheckpt := c;
     finalizedCheckpt := finalizedCheckpt s; checkptBlkRoot := checkptBlkRoot s |}.

(** [s.finalizedCheckpt.Epoch = epoch]: an assignment to one field of the
    object [finalizedCheckpt] points to. *)
Definition setFinalizedEpoch (epoch : Z) (s : Store) : Store :=
  {| db := db s; justifiedCheckpt := justifiedCheckpt s;
     finalizedCheckpt :=
       {| ethpb.Epoch := epoch; ethpb.Root := ethpb.Root (finalizedCheckpt s) |};
     checkptBlkRoot := checkptBlkRoot s |}.

(** Methods that write to the store thread it explicitly: a computation
    returns its outcome together with the store as it is left, also when it
    fails. *)
Definition M (A : Type) : Type := Store → result A * Store.

#[global] Instance M_ret : MRet M := fun A a s => (Ok a, s).

#[global] Instance M_bind : MBind M := fun A B f m s =>
  match m s with
  | (Ok a, s') => f a s'
  | (Err e, s') => (Err e, s')
  end.

Definition modify (f : Store → Store) : M unit := fun s => (Ok tt, f s).
Definition lift {A : Type} (r : result A) : M A := fun s => (r, s).

Section WithExternals.
Variable ext : Externals.

(** GenesisStore initializes the store struct before beacon chain starts
    to advance. *)
Definition GenesisStore (genesisState : pb.BeaconState) (s : Store) : Store :=
  let stateRoot := HashTreeRoot ext genesisState in
  let genesisBlk := blocks.NewGenesisBlock stateRoot in
  let blkRoot := SigningRoot ext genesisBlk in
  let justified := {| ethpb.Epoch := 0; ethpb.Root := blkRoot |} in
  let finalized := {| ethpb.Epoch := 0; ethpb.Root := blkRoot |} in
  let d := kv.SaveState genesisState blkRoot (kv.SaveBlock ext genesisBlk (db s)) in
  let h := HashProto ext justified in
  {| db := d; justifiedCheckpt := justified; finalizedCheckpt := finalized;
     checkptBlkRoot := <[h := blkRoot]> (checkptBlkRoot s) |}.

(** ancestor returns the block root of an ancestry block from the input
    block root.  The source recurses on the parent root without a bound;
    [fuel] bounds the depth and [ErrDiverged] reports its exhaustion. *)
Fixpoint ancestor (fuel : nat) (s : Store) (root : string) (slot : Z)
  : result (option string) :=
  match fuel with
  | O => Err ErrDiverged
  | S fuel' =>
      b ← kv.Block ext (db s) (ToBytes32 root);
      match b with
      | None => Ok None
      | Some b =>
          if ethpb.Slot b <? slot then Ok None
          else if ethpb.Slot b =? slot then Ok (Some root)
          else ancestor fuel' s (ethpb.ParentRoot b) slot
      end
  end.

(** The body of the loop over [activeIndices] in
    [latestAttestingBalance]. *)
Fixpoint sumAttestingBalances (fuel : nat) (s : Store) (root : string)
    (lastJustifiedState : pb.BeaconState)
    (wantedBlk : option ethpb.BeaconBlock)
    (activeIndices : list Z) (balances : Z) : result Z :=
  match activeIndices with
  | [] => Ok balances
  | i :: rest =>
      match kv.ValidatorLatestVote (db s) i with
      | None =>
          sumAttestingBalances fuel s root lastJustifiedState wantedBlk rest balances
      | Some vote =>
          match wantedBlk with
          | None => Err ErrPanic
          | Some wanted =>
              wantedRoot ← ancestor fuel s (pb.Root vote) (ethpb.Slot wanted);
              if bytesEqual (sliceBytes wantedRoot) root then
                match pb.Validators lastJustifiedState !! Z.to_nat i with
                | None => Err ErrPanic
                | Some v =>
                    sumAttestingBalances fuel s root lastJustifiedState wantedBlk rest
                      (u64 (balances + ethpb.EffectiveBalance v))
                end
              else
                sumAttestingBalances fuel s root lastJustifiedState wantedBlk rest balances
          end
      end
  end.

(** latestAttestingBalance returns the staked balance of a block from the
    input block root.  A missing entry of the Go map [checkptBlkRoot]
    reads as the zero array.  When the justified state is [nil] the
    source returns [errors.Wrapf(err, ...)] with [err == nil], which is
    [nil]: the call yields [0] and no error. *)
Definition latestAttestingBalance (fuel : nat) (s : Store) (root : string)
  : result Z :=
  let h := HashProto ext (justifiedCheckpt s) in
  let lastJustifiedBlkRoot := default (ToBytes32 EmptyString) (checkptBlkRoot s !! h) in
  match kv.State (db s) lastJustifiedBlkRoot with
  | None => Ok 0
  | Some lastJustifiedState =>
      let lastJustifiedEpoch := helpers.CurrentEpoch ext lastJustifiedState in
      let activeIndices :=
        helpers.ActiveValidatorIndices lastJustifiedState lastJustifiedEpoch in
      wantedBlk ← kv.Block ext (db s) (ToBytes32 root);
      sumAttestingBalances fuel s root lastJustifiedState wantedBlk activeIndices 0
  end.

(** The loop over [children[1:]] in [Head], carrying [highest] and
    [head]. *)
Fixpoint bestChild (fuel : nat) (s : Store) (children : list string)
    (highest : Z) (head : string) : result string :=
  match children with
  | [] => Ok head
  | child :: rest =>
      balance ← latestAttestingBalance fuel s child;
      if (highest <? balance)
         || ((balance =? highest) && bytesGreater child head)
      then bestChild fuel s rest balance child
      else bestChild fuel s rest highest head
  end.

(** The candidate children of one iteration of [Head]. *)
Definition headChildren (s : Store) (head : string) : result (list string) :=
  let startSlot := u64 (ethpb.Epoch (justifiedCheckpt s) * SlotsPerEpoch ext) in
  let filter :=
    filters.SetStartSlot startSlot (filters.SetParentRoot head filters.NewFilter) in
  kv.BlockRoots ext (db s) (Some filter).

(** The [for] loop of [Head]; [n] bounds its iterations. *)
Fixpoint headLoop (n fuel : nat) (s : Store) (head : string) : result string :=
  match n with
  | O => Err ErrDiverged
  | S n' =>
      children ← headChildren s head;
      match children with
      | [] => Ok head
      | first :: rest =>
          head' ←
            match rest with
            | [] => Ok first
            | _ :: _ =>
                highest ← latestAttestingBalance fuel s first;
                bestChild fuel s rest highest first
            end;
          headLoop n' fuel s head'
      end
  end.

(** Head returns the head of the beacon chain. *)
Definition Head (fuel : nat) (s : Store) : result string :=
  headLoop fuel fuel s (ethpb.Root (justifiedCheckpt s)).

(** FinalizedCheckpt returns the latest finalized check point. *)
Definition FinalizedCheckpt (s : Store) : ethpb.Checkpoint := finalizedCheckpt s.

(** verifyBlkPreState validates input block has a valid pre-state. *)
Definition verifyBlkPreState (s : Store) (b : ethpb.BeaconBlock)
  : result pb.BeaconState :=
  match kv.State (db s) (ToBytes32 (ethpb.ParentRoot b)) with
  | None => Err ErrMissingPreState
  | Some preState => Ok preState
  end.

(** verifyBlkDescendant validates input block root is a descendant of the
    current finalized block root.  With [err == nil] and a [nil]
    finalized block the source returns [errors.Wrap(nil, ...)], that is
    [nil]. *)
Definition verifyBlkDescendant (fuel : nat) (s : Store) (root : string) (slot : Z)
  : result unit :=
  finalizedBlk ← kv.Block ext (db s) (ToBytes32 (ethpb.Root (finalizedCheckpt s)));
  match finalizedBlk with
  | None => Ok tt
  | Some finalizedBlk =>
      bFinalizedRoot ← ancestor fuel s root (ethpb.Slot finalizedBlk);
      if bytesEqual (sliceBytes bFinalizedRoot) (ethpb.Root (finalizedCheckpt s))
      then Ok tt
      else Err ErrNotDescendantOfFinalized
  end.

(** verifyBlkFinalizedSlot validates input block is not less than or
    equal to current finalized slot. *)
Definition verifyBlkFinalizedSlot (s : Store) (b : ethpb.BeaconBlock) : result unit :=
  let finalizedSlot := helpers.StartSlot ext (ethpb.Epoch (finalizedCheckpt s)) in
  if ethpb.Slot b <=? finalizedSlot then Err ErrBeforeFinalized else Ok tt.

(** verifyBlkSlotTime validates the input block slot is not from the
    future; [now] is [time.Now().Unix()]. *)
Definition verifyBlkSlotTime (now : Z) (gensisTime blkSlot : Z) : result unit :=
  let slotTime := u64 (gensisTime + u64 (blkSlot * SecondsPerSlot ext)) in
  let currentTime := now in
  if currentTime <? slotTime then Err ErrFutureSlot else Ok tt.

Definition executeStateTransition (preState : pb.BeaconState) (b : ethpb.BeaconBlock)
  : result pb.BeaconState :=
  match ExecuteStateTransition ext preState b with
  | Some postState => Ok postState
  | None => Err ErrStateTransitionFailed
  end.

Definition reading {A : Type} (f : Store → result A) : M A := fun s => (f s, s).

(** OnBlock is called whenever a block is received.  It runs state
    transition on the block and updates the fork choice store. *)
Definition OnBlock (fuel : nat) (now : Z) (b : ethpb.BeaconBlock) : M unit :=
  preState ← reading (fun s => verifyBlkPreState s b);
  lift (verifyBlkSlotTime now (pb.GenesisTime preState) (ethpb.Slot b));;
  let root := SigningRoot ext b in
  reading (fun s => verifyBlkDescendant fuel s root (ethpb.Slot b));;
  reading (fun s => verifyBlkFinalizedSlot s b);;
  postState ← lift (executeStateTransition preState b);
  modify (fun s => setDb (kv.SaveBlock ext b (db s)) s);;
  modify (fun s => setDb (kv.SaveState postState root (db s)) s);;
  modify (fun s =>
    if ethpb.Epoch (justifiedCheckpt s)
         <? ethpb.Epoch (pb.CurrentJustifiedCheckpoint postState)
    then setJustifiedCheckpt (pb.CurrentJustifiedCheckpoint postState) s
    else s);;
  modify (fun s =>
    if ethpb.Epoch (finalizedCheckpt s)
         <? ethpb.Epoch (pb.FinalizedCheckpoint postState)
    then setFinalizedEpoch (ethpb.Epoch (pb.FinalizedCheckpoint postState)) s
    else s);;
  mret tt.

End WithExternals.

End forkchoice.

(** ** Package sync: gossip validation of proposer slashings *)

Module sync.

(** What a validator can be handed as a [proto.Message]. *)
Inductive Message : Type :=
| MsgProposerSlashing (slashing : ethpb.ProposerSlashing)
| MsgOther.

(** The collaborators of the validator: the fingerprint of a slashing
    ([None] when hashing fails), the slashing predicate of the core and
    the package constant [invalid]. *)
Record Oracles : Type := {
  HashSlashing : ethpb.ProposerSlashing → option string;
  VerifyProposerSlashing : pb.BeaconState → ethpb.ProposerSlashing → bool;
  invalid : string;
}.

(** What a call does to the outside, in order: a run of the predicate, a
    call of the Broadcaster, an error-level log line for a failed
    broadcast. *)
Inductive Event : Type :=
| EvVerify (slashing : ethpb.ProposerSlashing)
| EvBroadcast (slashing : ethpb.ProposerSlashing)
| EvLogBroadcastFailure.

(** The process-wide state: the cache [seenProposerSlashings] (an entry is
    found by [Get] for as long as it has not been evicted) and the calls
    made so far. *)
Record World : Type := {
  seenProposerSlashings : gmap string bool;
  trace : list Event;
}.

Definition cacheSet (key : string) (w : World) : World :=
  {| seenProposerSlashings := <[key := true]> (seenProposerSlashings w);
     trace := trace w |}.

Definition emit (e : Event) (w : World) : World :=
  {| seenProposerSlashings := seenProposerSlashings w;
     trace := trace w ++ [e] |}.

Definition cacheHas (key : string) (w : World) : bool :=
  bool_decide (is_Some (seenProposerSlashings w !! key)).

Section WithOracles.
Variable o : Oracles.

Definition propSlashingCacheKey (slashing : ethpb.ProposerSlashing) : option string :=
  HashSlashing o slashing.

(** validateProposerSlashing.  [headState] is the outcome of
    [r.db.HeadState] ([None] on error) and [broadcastOk] tells whether
    [p.Broadcast] returns [nil]. *)
Definition validateProposerSlashing
    (headState : option pb.BeaconState) (broadcastOk : bool)
    (msg : Message) (w : World) : bool * World :=
  match msg with
  | MsgOther => (false, w)
  | MsgProposerSlashing slashing =>
      match propSlashingCacheKey slashing with
      | None => (false, w)
      | Some cacheKey =>
          let invalidKey := (invalid o ++ cacheKey)%string in
          if cacheHas invalidKey w then (false, w)
          else if cacheHas cacheKey w then (false, w)
          else
            match headState with
            | None => (false, w)
            | Some state =>
                let w1 := emit (EvVerify slashing) w in
                if negb (VerifyProposerSlashing o state slashing)
                then (false, cacheSet invalidKey w1)
                else
                  let w2 := cacheSet cacheKey w1 in
                  let w3 := emit (EvBroadcast slashing) w2 in
                  if broadcastOk then (true, w3)
                  else (true, emit EvLogBroadcastFailure w3)
            end
      end
  end.

End WithOracles.

End sync.

(** ** Package blockchain (deprecated): the canonical roots *)

Module blockchain.

(** UpdateCanonicalRoots sets a new head into the canonical block roots
    map, the field [canonicalRoots] of the chain service (a Go map from
    slot to block root). *)
Definition UpdateCanonicalRoots (newHead : ethpb.BeaconBlock) (newHeadRoot : string)
    (canonicalRoots : gmap Z string) : gmap Z string :=
  <[ethpb.Slot newHead := newHeadRoot]> canonicalRoots.

(** IsCanonical returns true if the input block hash of the corresponding
    slot is part of the canonical chain. *)
Definition IsCanonical (canonicalRoots : gmap Z string) (slot : Z) (hash : string) : bool :=
  match canonicalRoots !! slot with
  | Some canonicalHash => bytesEqual canonicalHash hash
  | None => false
  end.

End blockchain.

(** ** Package encoder: the length-delimited network encoding *)

Module encoder.

Inductive DecodeError : Type :=
| ErrEOF              (* the reader has no byte left *)
| ErrExcessMaxLength  (* a varint of more than ten bytes *)
| ErrSnappy           (* snappy.Decode failed *)
| ErrSsz.             (* ssz.Unmarshal failed *)

(** The serializer and the compressor are libraries outside the sources;
    [Msg] is the type of the messages handed to the encoder. *)
Record Codec (Msg : Type) : Type := {
  sszMarshal : Msg → option string;
  sszUnmarshal : string → option Msg;
  snappyEncode : string → string;
  snappyDecode : string → option string;
}.
Arguments sszMarshal {Msg} c.
Arguments sszUnmarshal {Msg} c.
Arguments snappyEncode {Msg} c.
Arguments snappyDecode {Msg} c.

Definition byteOf (z : Z) : Ascii.ascii := Ascii.ascii_of_N (Z.to_N z).
Definition valueOf (c : Ascii.ascii) : Z := Z.of_N (Ascii.N_of_ascii c).

(** The loop of [proto.EncodeVarint]: while [x > 127] emit the low seven
    bits with the continuation bit set and shift; then emit [x].  [n]
    bounds the iterations; a [uint64] takes at most ten bytes. *)
Fixpoint encodeVarintLoop (n : nat) (x : Z) : string :=
  match n with
  | O => EmptyString
  | S n' =>
      if 127 <? x
      then String (byteOf (Z.lor 128 (Z.land x 127))) (encodeVarintLoop n' (Z.shiftr x 7))
      else String (byteOf x) EmptyString
  end.

Definition maxVarintLength : nat := 10.

Definition EncodeVarint (x : Z) : string := encodeVarintLoop maxVarintLength x.

(** Modelled from the spec: [readVarint] is not among the sources.  The
    length prefix is an unsigned varint, base 128, little-endian, with the
    high bit of a byte as continuation; at most ten bytes are read, one at
    a time.  The result is the value and what is left of the reader. *)
Fixpoint readVarintLoop (n : nat) (r : string) : DecodeError + Z * string :=
  match n with
  | O => inl ErrExcessMaxLength
  | S n' =>
      match r with
      | EmptyString => inl ErrEOF
      | String c rest =>
          if valueOf c <? 128 then inr (valueOf c, rest)
          else
            match readVarintLoop n' rest with
            | inl e => inl e
            | inr (v, rest') => inr (Z.land (valueOf c) 127 + Z.shiftl v 7, rest')
            end
      end
  end.

(** Modelled from the spec: [readVarint], see [readVarintLoop]; the value is
    a [uint64]. *)
Definition readVarint (r : string) : DecodeError + Z * string :=
  match readVarintLoop maxVarintLength r with
  | inl e => inl e
  | inr (v, rest) => inr (u64 v, rest)
  end.

(** [b := make([]byte, msgLen); r.Read(b)] on a reader that holds the bytes
    [r] in memory: an exhausted reader reports the end of the input, any
    other fills [b] with the bytes it has, at most [msgLen], and the rest of
    [b] stays zero. *)
Definition readInto (msgLen : Z) (r : string) : DecodeError + string :=
  match r with
  | EmptyString => inl ErrEOF
  | String _ _ => inr (padTo (Z.to_nat msgLen) r)
  end.

Section WithCodec.
Context {Msg : Type} (c : Codec Msg).

(** Encode the proto message to the io.Writer: the bytes written, none for
    a [nil] message; [None] when the serializer fails. *)
Definition Encode (UseSnappyCompression : bool) (msg : option Msg) : option string :=
  match msg with
  | None => Some EmptyString
  | Some msg =>
      match sszMarshal c msg with
      | None => None
      | Some b =>
          let b := if UseSnappyCompression then snappyEncode c b else b in
          Some (EncodeVarint (Z.of_nat (String.length b)) ++ b)%string
      end
  end.

(** Decode the bytes from io.Reader to the protobuf message provided. *)
Definition Decode (UseSnappyCompression : bool) (r : string) : DecodeError + Msg :=
  match readVarint r with
  | inl e => inl e
  | inr (msgLen, r) =>
      match readInto msgLen r with
      | inl e => inl e
      | inr b =>
          let decompressed :=
            if UseSnappyCompression
            then match snappyDecode c b with Some b' => inr b' | None => inl ErrSnappy end
            else inr b in
          match decompressed with
          | inl e => inl e
          | inr b =>
              match sszUnmarshal c b with
              | Some msg => inr msg
              | None => inl ErrSsz
              end
          end
      end
  end.

(** ProtocolSuffix returns the appropriate suffix for protocol IDs. *)
Definition ProtocolSuffix (UseSnappyCompression : bool) : string :=
  if UseSnappyCompression then "/ssz_snappy" else "/ssz".

End WithCodec.

End encoder.

(** * A worked chain

    Concrete collaborators and a small block tree, used to run the code.
    The stand-in signing root of a block is its state-root label padded to
    32 bytes; the blocks below carry distinct labels.  The stand-in state
    transition copies the pre-state, and reads from the label what the
    block does to the checkpoints: ["d"] justifies epoch 1 at the block's
    parent, ["fin"] finalizes epoch 1 at the block itself, ["bad"] is an
    invalid block. *)

Module scenario.

Definition label (z : Z) : Ascii.ascii := Ascii.ascii_of_nat (Z.to_nat z).

Definition exSigningRoot (b : ethpb.BeaconBlock) : string :=
  ToBytes32 (ethpb.StateRoot b).

Definition exMarshal (b : ethpb.BeaconBlock) : string :=
  String (label (ethpb.Slot b)) (ethpb.ParentRoot b ++ ethpb.StateRoot b).

Definition exUnmarshal (enc : string) : option ethpb.BeaconBlock :=
  match enc with
  | EmptyString => Some ethpb.emptyBlock
  | String c rest =>
      Some {| ethpb.Slot := Z.of_nat (Ascii.nat_of_ascii c);
              ethpb.ParentRoot := String.substring 0 32 rest;
              ethpb.StateRoot := String.substring 32 (String.length rest - 32) rest |}
  end.

Definition exHashProto (c : ethpb.Checkpoint) : string :=
  String (label (ethpb.Epoch c)) (ethpb.Root c).

Definition exTransition (pre : pb.BeaconState) (b : ethpb.BeaconBlock)
  : option pb.BeaconState :=
  if bool_decide (ethpb.StateRoot b = "bad") then None
  else
    Some {| pb.GenesisTime := pb.GenesisTime pre;
            pb.Slot := ethpb.Slot b;
            pb.Validators := pb.Validators pre;
            pb.CurrentJustifiedCheckpoint :=
              if bool_decide (ethpb.StateRoot b = "d")
              then {| ethpb.Epoch := 1; ethpb.Root := ethpb.ParentRoot b |}
              else pb.CurrentJustifiedCheckpoint pre;
            pb.FinalizedCheckpoint :=
              if bool_decide (ethpb.StateRoot b = "fin")
              then {| ethpb.Epoch := 1; ethpb.Root := exSigningRoot b |}
              else pb.FinalizedCheckpoint pre |}.

Definition ext : Externals :=
  {| SigningRoot := exSigningRoot;
     Marshal := exMarshal;
     Unmarshal := exUnmarshal;
     HashProto := exHashProto;
     HashTreeRoot := fun _ => "genesis"%string;
     ExecuteStateTransition := exTransition;
     SlotsPerEpoch := 8;
     SecondsPerSlot := 6;
     headBlockRootKey := "head-root" |}.

Definition validator0 : ethpb.Validator :=
  {| ethpb.EffectiveBalance := 32000000000;
     ethpb.ActivationEpoch := 0;
     ethpb.ExitEpoch := 18446744073709551615 |}.

Definition noCheckpoint : ethpb.Checkpoint :=
  {| ethpb.Epoch := 0; ethpb.Root := EmptyString |}.

Definition genesisState : pb.BeaconState :=
  {| pb.GenesisTime := 1000; pb.Slot := 0; pb.Validators := [validator0];
     pb.CurrentJustifiedCheckpoint := noCheckpoint;
     pb.FinalizedCheckpoint := noCheckpoint |}.

(** [NewForkChoiceService] over an empty database. *)
Definition fresh : forkchoice.Store :=
  {| forkchoice.db := kv.emptyStore;
     forkchoice.justifiedCheckpt := noCheckpoint;
     forkchoice.finalizedCheckpt := noCheckpoint;
     forkchoice.checkptBlkRoot := ∅ |}.

Definition atGenesis : forkchoice.Store :=
  forkchoice.GenesisStore ext genesisState fresh.

Definition G : ethpb.BeaconBlock := blocks.NewGenesisBlock "genesis".

Definition blockA : ethpb.BeaconBlock :=
  {| ethpb.Slot := 6; ethpb.ParentRoot := exSigningRoot G; ethpb.StateRoot := "a" |}.

Definition blockX : ethpb.BeaconBlock :=
  {| ethpb.Slot := 7; ethpb.ParentRoot := exSigningRoot blockA; ethpb.StateRoot := "x" |}.

Definition blockD : ethpb.BeaconBlock :=
  {| ethpb.Slot := 9; ethpb.ParentRoot := exSigningRoot blockA; ethpb.StateRoot := "d" |}.

Definition blockFin : ethpb.BeaconBlock :=
  {| ethpb.Slot := 1; ethpb.ParentRoot := exSigningRoot G; ethpb.StateRoot := "fin" |}.

Definition blockBad : ethpb.BeaconBlock :=
  {| ethpb.Slot := 1; ethpb.ParentRoot := exSigningRoot G; ethpb.StateRoot := "bad" |}.

Definition orphan : ethpb.BeaconBlock :=
  {| ethpb.Slot := 3; ethpb.ParentRoot := ToBytes32 "not-synced"; ethpb.StateRoot := "o" |}.

(** The caller files the block before it hands it to [OnBlock]. *)
Definition receive (b : ethpb.BeaconBlock) (s : forkchoice.Store)
  : result unit * forkchoice.Store :=
  forkchoice.OnBlock ext 16 2000 b
    (forkchoice.setDb (kv.SaveBlock ext b (forkchoice.db s)) s).

(** Genesis, then [blockA], [blockX] and [blockD]. *)
Definition forked : forkchoice.Store :=
  (receive blockD (receive blockX (receive blockA atGenesis).2).2).2.

(** A slashing, collaborators that accept every slashing, and a process
    that has seen nothing yet. *)
Definition header (stateRoot : string) : ethpb.BeaconBlockHeader :=
  {| ethpb.HeaderSlot := 0; ethpb.HeaderStateRoot := stateRoot;
     ethpb.HeaderSignature := "sig" |}.

Definition slashingX : ethpb.ProposerSlashing :=
  {| ethpb.ProposerIndex := 1; ethpb.Header_1 := header "A"; ethpb.Header_2 := header "B" |}.

Definition oracles : sync.Oracles :=
  {| sync.HashSlashing := fun sl =>
       Some (ethpb.HeaderStateRoot (ethpb.Header_1 sl)
             ++ ethpb.HeaderStateRoot (ethpb.Header_2 sl))%string;
     sync.VerifyProposerSlashing := fun _ _ => true;
     sync.invalid := "invalidObject" |}.

Definition unseen : sync.World :=
  {| sync.seenProposerSlashings := ∅; sync.trace := [] |}.

(** A decoder that rejects what is too short to hold a slot byte and a
    parent root, and collaborators that use it. *)
Definition strictUnmarshal (enc : string) : option ethpb.BeaconBlock :=
  if bool_decide (String.length enc ≤ 32)%nat then None else exUnmarshal enc.

Definition strict : Externals :=
  {| SigningRoot := exSigningRoot;
     Marshal := exMarshal;
     Unmarshal := strictUnmarshal;
     HashProto := exHashProto;
     HashTreeRoot := fun _ => "genesis"%string;
     ExecuteStateTransition := exTransition;
     SlotsPerEpoch := 8;
     SecondsPerSlot := 6;
     headBlockRootKey := "head-root" |}.

(** An index deleter that drops the root from the entry of the parent root
    and from the entry of the slot. *)
Definition dropFromIndices : kv.IndexDeleter :=
  fun parentRoot slot root indices =>
    Ok (alter (filter (fun r => r ≠ root)) parentRoot indices.1,
        alter (filter (fun r => r ≠ root)) slot indices.2).

(** A codec over byte strings: the serializer is the identity and the
    stand-in compressor puts a marker byte in front. *)
Definition framing : encoder.Codec string :=
  {| encoder.sszMarshal := fun m => Some m;
     encoder.sszUnmarshal := fun b => Some b;
     encoder.snappyEncode := fun b => String (Ascii.ascii_of_nat 122) b;
     encoder.snappyDecode := fun b =>
       match b with
       | String c rest => if bool_decide (c = Ascii.ascii_of_nat 122) then Some rest else None
       | EmptyString => None
       end |}.

End scenario.

(** * Notions used by the further properties *)

(** The order of two bucket entries with slot keys. *)
Definition keyLe {V : Type} (e1 e2 : Z * V) : Prop := e1.1 ≤ e2.1.

(** [c] is one of the candidate children [Head] looks at under [p]. *)
Definition childOf (ext : Externals) (s : forkchoice.Store) (p c : string) : Prop :=
  ∃ children, forkchoice.headChildren ext s p = Ok children ∧ c ∈ children.

(** [p] is the parent root of the block [ancestor] reads for [r]. *)
Definition parentOf (ext : Externals) (s : forkchoice.Store) (r p : string) : Prop :=
  ∃ b, kv.Block ext (forkchoice.db s) (ToBytes32 r) = Ok (Some b) ∧ ethpb.ParentRoot b = p.

(** A check of [descending] that can be run: every entry of the blocks
    bucket that decodes to a block of positive slot has, as the block the
    store resolves for its parent root, one of a smaller slot. *)
Definition descendingCheck (ext : Externals) (s : forkchoice.Store) : bool :=
  bool_decide
    (map_Forall
       (fun (_ : string) (enc : string) =>
          match Unmarshal ext enc with
          | Some b =>
              if 0 <? ethpb.Slot b then
                match kv.Block ext (forkchoice.db s) (ToBytes32 (ethpb.ParentRoot b)) with
                | Ok (Some p) => ethpb.Slot p <? ethpb.Slot b
                | _ => true
                end
              else true
          | None => true
          end = true)
       (kv.blocksBucket (forkchoice.db s))).

(** Under the weights [w], the child [c] does not beat [r]: it is lighter,
    or as heavy with a root that is not greater. *)
Definition noBetter (w : string → Z) (c r : string) : Prop :=
  w c < w r ∨ (w c = w r ∧ bytesGreater c r = false).

(** * The admission cascade in the specification's words

    The error of the first precondition of [on_block] that fails, taken in
    the order pre-state, slot-time, finalized-descendant,
    post-finalized-epoch, state transition; [None] when all of them hold. *)

Definition firstFailure (ext : Externals) (fuel : nat) (now : Z)
    (b : ethpb.BeaconBlock) (s : forkchoice.Store) : option Error :=
  match forkchoice.verifyBlkPreState s b with
  | Err e => Some e
  | Ok pre_state =>
      match forkchoice.verifyBlkSlotTime ext now (pb.GenesisTime pre_state) (ethpb.Slot b) with
      | Err e => Some e
      | Ok _ =>
          match forkchoice.verifyBlkDescendant ext fuel s (SigningRoot ext b) (ethpb.Slot b) with
          | Err e => Some e
          | Ok _ =>
              match forkchoice.verifyBlkFinalizedSlot ext s b with
              | Err e => Some e
              | Ok _ =>
                  match forkchoice.executeStateTransition ext pre_state b with
                  | Err e => Some e
                  | Ok _ => None
                  end
              end
          end
      end
  end.

(** What [OnBlock] leaves behind when every check passes. *)
Definition accepted (ext : Externals) (b : ethpb.BeaconBlock) (postState : pb.BeaconState)
    (s : forkchoice.Store) : forkchoice.Store :=
  let s1 := forkchoice.setDb (kv.SaveBlock ext b (forkchoice.db s)) s in
  let s2 :=
    forkchoice.setDb (kv.SaveState postState (SigningRoot ext b) (forkchoice.db s1)) s1 in
  let s3 :=
    if ethpb.Epoch (forkchoice.justifiedCheckpt s2)
         <? ethpb.Epoch (pb.CurrentJustifiedCheckpoint postState)
    then forkchoice.setJustifiedCheckpt (pb.CurrentJustifiedCheckpoint postState) s2
    else s2 in
  if ethpb.Epoch (forkchoice.finalizedCheckpt s3)
       <? ethpb.Epoch (pb.FinalizedCheckpoint postState)
  then forkchoice.setFinalizedEpoch (ethpb.Epoch (pb.FinalizedCheckpoint postState)) s3
  else s3.

(** Slots strictly decrease along parent pointers: what the store resolves
    as the parent of a block with a positive slot has a smaller slot. *)
Definition descending (ext : Externals) (s : forkchoice.Store) : Prop :=
  ∀ root b p,
    kv.Block ext (forkchoice.db s) root = Ok (Some b) →
    kv.Block ext (forkchoice.db s) (ToBytes32 (ethpb.ParentRoot b)) = Ok (Some p) →
    0 < ethpb.Slot b →
    ethpb.Slot p < ethpb.Slot b.

(** The events a call added to the trace. *)
Definition eventsOf (before after : sync.World) : list sync.Event :=
  drop (length (sync.trace before)) (sync.trace after).

(** "A lost broadcast is retried when the message is re-received": the
    slashing is accepted although its broadcast fails, and the next call
    with the same slashing calls the Broadcaster again. *)
Definition retriedAfterLostBroadcast (o : sync.Oracles) (state : pb.BeaconState)
    (slashing : ethpb.ProposerSlashing) (w : sync.World) : Prop :=
  let first :=
    sync.validateProposerSlashing o (Some state) false (sync.MsgProposerSlashing slashing) w in
  let second :=
    sync.validateProposerSlashing o (Some state) true (sync.MsgProposerSlashing slashing) first.2 in
  first.1 = true ∧ sync.EvBroadcast slashing ∈ eventsOf first.2 second.2.

(** * Properties of the store *)

Section KvFacts.
Variable ext : Externals.

Lemma Block_absent (k : kv.Store) (root : string) :
  kv.blocksBucket k !! root = None →
  kv.Block ext k root = Ok (Some ethpb.emptyBlock).
Proof. intros H. unfold kv.Block. by rewrite H. Qed.

Lemma Block_never_nil (k : kv.Store) (root : string) :
  kv.Block ext k root ≠ Ok None.
Proof.
  unfold kv.Block, kv.decodeBlock.
  destruct (kv.blocksBucket k !! root) as [enc|]; [|done].
  simpl. by destruct (Unmarshal ext enc).
Qed.

Lemma Block_SaveBlock (k : kv.Store) (b : ethpb.BeaconBlock) :
  Unmarshal ext (Marshal ext b) = Some b →
  kv.Block ext (kv.SaveBlock ext b k) (SigningRoot ext b) = Ok (Some b).
Proof.
  intros Hcodec. unfold kv.Block, kv.SaveBlock, kv.putBlocksBucket; simpl.
  rewrite lookup_insert_eq. unfold kv.decodeBlock. by rewrite Hcodec.
Qed.

Lemma HasBlock_SaveBlock (k : kv.Store) (b : ethpb.BeaconBlock) :
  kv.HasBlock (kv.SaveBlock ext b k) (SigningRoot ext b) = true.
Proof.
  unfold kv.HasBlock, kv.SaveBlock, kv.putBlocksBucket; simpl.
  rewrite lookup_insert_eq. by apply bool_decide_eq_true_2.
Qed.

(** The head pointer is written to the blocks bucket and read from the
    validators bucket: no write of this file reaches the read. *)
Lemma HeadBlock_SaveHeadBlockRoot (k : kv.Store) (root : string) :
  kv.HeadBlock ext (kv.SaveHeadBlockRoot ext root k) = kv.HeadBlock ext k.
Proof. reflexivity. Qed.

Lemma HeadBlock_SaveBlock (k : kv.Store) (b : ethpb.BeaconBlock) :
  kv.HeadBlock ext (kv.SaveBlock ext b k) = kv.HeadBlock ext k.
Proof. reflexivity. Qed.

Lemma HeadBlock_no_validators_entry (k : kv.Store) :
  kv.validatorsBucket k !! headBlockRootKey ext = None →
  kv.HeadBlock ext k = Ok (Some ethpb.emptyBlock).
Proof. intros H. unfold kv.HeadBlock. by rewrite H. Qed.

(** A start slot without an end slot does not take part in the query. *)
Lemma Blocks_start_slot_alone_ignored (k : kv.Store) (f : filters.QueryFilter) :
  filters.EndSlot f = None →
  kv.Blocks ext k (Some f)
  = kv.Blocks ext k
      (Some {| filters.ParentRoot := filters.ParentRoot f;
               filters.StartSlot := None; filters.EndSlot := None |}).
Proof.
  intros Hend. unfold kv.Blocks, kv.createBlockIndicesFromFilters; simpl.
  rewrite Hend. by destruct (filters.StartSlot f).
Qed.

(** A filter that is not [nil] and has no parent root and no complete
    range selects nothing. *)
Lemma Blocks_no_index_no_range (k : kv.Store) (f : filters.QueryFilter) :
  filters.ParentRoot f = None → filters.EndSlot f = None →
  kv.Blocks ext k (Some f) = Ok [].
Proof.
  intros Hp Hend. unfold kv.Blocks, kv.createBlockIndicesFromFilters; simpl.
  rewrite Hp, Hend. by destruct (filters.StartSlot f).
Qed.

End KvFacts.

(** * Properties of block admission *)

Section OnBlockFacts.
Variable ext : Externals.

Lemma verifyBlkPreState_error (s : forkchoice.Store) (b : ethpb.BeaconBlock) (e : Error) :
  forkchoice.verifyBlkPreState s b = Err e → e = ErrMissingPreState.
Proof.
  unfold forkchoice.verifyBlkPreState.
  destruct (kv.State _ _); congruence.
Qed.

Lemma verifyBlkSlotTime_error (now genesisTime slot : Z) (e : Error) :
  forkchoice.verifyBlkSlotTime ext now genesisTime slot = Err e → e = ErrFutureSlot.
Proof.
  unfold forkchoice.verifyBlkSlotTime. case_match; congruence.
Qed.

Lemma verifyBlkFinalizedSlot_error (s : forkchoice.Store) (b : ethpb.BeaconBlock) (e : Error) :
  forkchoice.verifyBlkFinalizedSlot ext s b = Err e → e = ErrBeforeFinalized.
Proof.
  unfold forkchoice.verifyBlkFinalizedSlot. case_match; congruence.
Qed.

Lemma executeStateTransition_error (pre : pb.BeaconState) (b : ethpb.BeaconBlock) (e : Error) :
  forkchoice.executeStateTransition ext pre b = Err e → e = ErrStateTransitionFailed.
Proof.
  unfold forkchoice.executeStateTransition. case_match; congruence.
Qed.

Lemma verifyBlkPreState_ok (s : forkchoice.Store) (b : ethpb.BeaconBlock)
    (preState : pb.BeaconState) :
  forkchoice.verifyBlkPreState s b = Ok preState
  ↔ kv.State (forkchoice.db s) (ToBytes32 (ethpb.ParentRoot b)) = Some preState.
Proof.
  unfold forkchoice.verifyBlkPreState.
  destruct (kv.State _ _); split; congruence.
Qed.

(** A block passes the finalized-slot check when its slot is beyond the
    first slot of the finalized epoch. *)
Lemma verifyBlkFinalizedSlot_boundary (s : forkchoice.Store) (b : ethpb.BeaconBlock) :
  forkchoice.verifyBlkFinalizedSlot ext s b = Ok tt
  ↔ u64 (ethpb.Epoch (forkchoice.finalizedCheckpt s) * SlotsPerEpoch ext) < ethpb.Slot b.
Proof.
  unfold forkchoice.verifyBlkFinalizedSlot, helpers.StartSlot.
  destruct (Z.leb_spec (ethpb.Slot b)
              (u64 (ethpb.Epoch (forkchoice.finalizedCheckpt s) * SlotsPerEpoch ext)));
    split; intros; try done; lia.
Qed.

(** The boundary of the slot-time check: a block whose slot time is [now]
    passes, one second later it does not. *)
Lemma verifyBlkSlotTime_boundary (now genesisTime slot : Z) :
  forkchoice.verifyBlkSlotTime ext now genesisTime slot = Ok tt
  ↔ u64 (genesisTime + u64 (slot * SecondsPerSlot ext)) ≤ now.
Proof.
  unfold forkchoice.verifyBlkSlotTime.
  destruct (Z.ltb_spec now (u64 (genesisTime + u64 (slot * SecondsPerSlot ext))));
    split; intros; try done; lia.
Qed.

Lemma OnBlock_cases (fuel : nat) (now : Z) (b : ethpb.BeaconBlock) (s : forkchoice.Store) :
  (∃ e, firstFailure ext fuel now b s = Some e
        ∧ forkchoice.OnBlock ext fuel now b s = (Err e, s))
  ∨ (∃ preState postState,
        firstFailure ext fuel now b s = None
        ∧ forkchoice.verifyBlkPreState s b = Ok preState
        ∧ ExecuteStateTransition ext preState b = Some postState
        ∧ forkchoice.OnBlock ext fuel now b s = (Ok tt, accepted ext b postState s)).
Proof.
  unfold firstFailure, forkchoice.OnBlock, forkchoice.executeStateTransition.
  unfold mbind, forkchoice.M_bind, forkchoice.reading, forkchoice.lift,
    forkchoice.modify, mret, forkchoice.M_ret.
  destruct (forkchoice.verifyBlkPreState s b) as [pre|e]; [|left; eauto].
  destruct (forkchoice.verifyBlkSlotTime ext now (pb.GenesisTime pre) (ethpb.Slot b))
    as [[]|e]; [|left; eauto].
  destruct (forkchoice.verifyBlkDescendant ext fuel s (SigningRoot ext b) (ethpb.Slot b))
    as [[]|e]; [|left; eauto].
  destruct (forkchoice.verifyBlkFinalizedSlot ext s b) as [[]|e]; [|left; eauto].
  destruct (ExecuteStateTransition ext pre b) as [post|] eqn:Hpost; [|left; eauto].
  right. exists pre, post. repeat split; try done.
Qed.

Lemma OnBlock_finalized_root_kept (fuel : nat) (now : Z) (b : ethpb.BeaconBlock)
    (s s' : forkchoice.Store) (r : result unit) :
  forkchoice.OnBlock ext fuel now b s = (r, s') →
  ethpb.Root (forkchoice.finalizedCheckpt s') = ethpb.Root (forkchoice.finalizedCheckpt s).
Proof.
  intros H.
  destruct (OnBlock_cases fuel now b s) as [(e & _ & He)|(pre & post & _ & _ & _ & Hok)].
  - rewrite He in H. by inversion H.
  - rewrite Hok in H. inversion H; subst. unfold accepted.
    repeat case_match; reflexivity.
Qed.

Lemma OnBlock_finalized_epoch (fuel : nat) (now : Z) (b : ethpb.BeaconBlock)
    (s : forkchoice.Store) (preState postState : pb.BeaconState) :
  firstFailure ext fuel now b s = None →
  forkchoice.verifyBlkPreState s b = Ok preState →
  ExecuteStateTransition ext preState b = Some postState →
  ethpb.Epoch (forkchoice.finalizedCheckpt s)
    < ethpb.Epoch (pb.FinalizedCheckpoint postState) →
  ethpb.Epoch (forkchoice.finalizedCheckpt (forkchoice.OnBlock ext fuel now b s).2)
    = ethpb.Epoch (pb.FinalizedCheckpoint postState).
Proof.
  intros Hnone Hpre Hpost Hlt.
  destruct (OnBlock_cases fuel now b s) as [(e & He & _)|(pre & post & _ & Hpre' & Hpost' & Hok)].
  - congruence.
  - rewrite Hok. simpl. rewrite Hpre in Hpre'. inversion Hpre'; subst pre.
    rewrite Hpost in Hpost'. inversion Hpost'; subst post.
    unfold accepted.
    assert (forall s0, forkchoice.finalizedCheckpt
              (if ethpb.Epoch (forkchoice.justifiedCheckpt s0)
                    <? ethpb.Epoch (pb.CurrentJustifiedCheckpoint postState)
               then forkchoice.setJustifiedCheckpt
                      (pb.CurrentJustifiedCheckpoint postState) s0
               else s0) = forkchoice.finalizedCheckpt s0) as Hj
      by (intros s0; by case_match).
    cbv zeta. rewrite Hj. simpl.
    destruct (Z.ltb_spec (ethpb.Epoch (forkchoice.finalizedCheckpt s))
                (ethpb.Epoch (pb.FinalizedCheckpoint postState))); [|lia].
    reflexivity.
Qed.

End OnBlockFacts.

(** * Properties of the fork-choice walk *)

Section AncestorFacts.
Variable ext : Externals.

Lemma Block_error (k : kv.Store) (root : string) (e : Error) :
  kv.Block ext k root = Err e → e = ErrCorruptEncoding.
Proof.
  unfold kv.Block, kv.decodeBlock.
  destruct (kv.blocksBucket k !! root) as [enc|]; [|done].
  simpl. destruct (Unmarshal ext enc); simpl; congruence.
Qed.

(** More fuel does not change a result that was reached. *)
Lemma ancestor_fuel_mono (n m : nat) (s : forkchoice.Store) (root : string) (slot : Z)
    (r : result (option string)) :
  (n ≤ m)%nat →
  forkchoice.ancestor ext n s root slot = r →
  r ≠ Err ErrDiverged →
  forkchoice.ancestor ext m s root slot = r.
Proof.
  revert m root. induction n as [|n IH]; intros m root Hle H Hr.
  - simpl in H. congruence.
  - destruct m as [|m]; [lia|]. simpl in *.
    destruct (kv.Block ext (forkchoice.db s) (ToBytes32 root)) as [[b|]|e]; simpl in *;
      try done.
    destruct (ethpb.Slot b <? slot); [done|].
    destruct (ethpb.Slot b =? slot); [done|].
    apply IH; [lia|done|done].
Qed.

Lemma ancestor_self (n : nat) (s : forkchoice.Store) (root : string) (b : ethpb.BeaconBlock) :
  kv.Block ext (forkchoice.db s) (ToBytes32 root) = Ok (Some b) →
  forkchoice.ancestor ext (S n) s root (ethpb.Slot b) = Ok (Some root).
Proof.
  intros H. simpl. rewrite H. simpl.
  rewrite Z.ltb_irrefl, Z.eqb_refl. reflexivity.
Qed.

(** A root the store does not hold is its own ancestor at slot 0. *)
Lemma ancestor_missing_at_slot_0 (n : nat) (s : forkchoice.Store) (root : string) :
  kv.blocksBucket (forkchoice.db s) !! ToBytes32 root = None →
  forkchoice.ancestor ext (S n) s root 0 = Ok (Some root).
Proof.
  intros H. simpl. rewrite (Block_absent ext _ _ H). reflexivity.
Qed.

(** Whatever [ancestor] returns resolves to a block of the wanted slot. *)
Lemma ancestor_sound (n : nat) (s : forkchoice.Store) (root a : string) (slot : Z) :
  forkchoice.ancestor ext n s root slot = Ok (Some a) →
  ∃ b, kv.Block ext (forkchoice.db s) (ToBytes32 a) = Ok (Some b) ∧ ethpb.Slot b = slot.
Proof.
  revert root. induction n as [|n IH]; intros root H; [discriminate|].
  simpl in H.
  destruct (kv.Block ext (forkchoice.db s) (ToBytes32 root)) as [[b|]|e] eqn:Hb;
    simpl in H; try discriminate.
  destruct (ethpb.Slot b <? slot); [discriminate|].
  destruct (Z.eqb_spec (ethpb.Slot b) slot) as [Heq|Hne].
  - inversion H; subst a. eauto.
  - eauto.
Qed.

(** On a store whose slots descend along parent pointers the walk returns:
    a budget beyond the distance to the wanted slot is enough. *)
Lemma ancestor_returns (s : forkchoice.Store) (slot : Z) :
  descending ext s → 0 ≤ slot →
  ∀ (n : nat) (root : string),
    (∀ b, kv.Block ext (forkchoice.db s) (ToBytes32 root) = Ok (Some b) →
          ethpb.Slot b - slot < Z.of_nat n) →
    forkchoice.ancestor ext (S n) s root slot ≠ Err ErrDiverged.
Proof.
  intros Hdesc Hslot. induction n as [|n IH]; intros root Hdist.
  - simpl.
    destruct (kv.Block ext (forkchoice.db s) (ToBytes32 root)) as [[b|]|e] eqn:Hb;
      simpl; try done.
    + specialize (Hdist b eq_refl).
      destruct (Z.ltb_spec (ethpb.Slot b) slot); [done|lia].
    + apply Block_error in Hb. congruence.
  - cbn [forkchoice.ancestor].
    destruct (kv.Block ext (forkchoice.db s) (ToBytes32 root)) as [[b|]|e] eqn:Hb;
      cbn [mbind result_bind]; try done.
    + destruct (Z.ltb_spec (ethpb.Slot b) slot); [done|].
      destruct (Z.eqb_spec (ethpb.Slot b) slot); [done|].
      apply IH. intros p Hp.
      specialize (Hdist b eq_refl).
      pose proof (Hdesc _ _ _ Hb Hp). lia.
    + apply Block_error in Hb. congruence.
Qed.

Lemma latestAttestingBalance_no_state (fuel : nat) (s : forkchoice.Store) (root : string) :
  kv.State (forkchoice.db s)
    (default (ToBytes32 EmptyString)
       (forkchoice.checkptBlkRoot s !! HashProto ext (forkchoice.justifiedCheckpt s))) = None →
  forkchoice.latestAttestingBalance ext fuel s root = Ok 0.
Proof. intros H. unfold forkchoice.latestAttestingBalance. by rewrite H. Qed.

Lemma IntersectionByteSlices_single (l : list string) :
  sliceutil.IntersectionByteSlices [l] = l.
Proof.
  unfold sliceutil.IntersectionByteSlices.
  induction l as [|x l IH]; [done|].
  rewrite filter_cons_True by constructor. by rewrite IH.
Qed.

(** The children [Head] looks at are all the roots filed under the parent:
    the start slot it sets does not restrict them. *)
Lemma headChildren_all_children (s : forkchoice.Store) (head : string) :
  forkchoice.headChildren ext s head
  = (blocks ← mapM (fun key =>
                 kv.decodeBlock ext
                   (default EmptyString (kv.blocksBucket (forkchoice.db s) !! key)))
               (default [] (kv.parentRootIndicesBucket (forkchoice.db s) !! head));
     Ok (map (SigningRoot ext) blocks)).
Proof.
  unfold forkchoice.headChildren, kv.BlockRoots, kv.Blocks.
  cbn [filters.SetStartSlot filters.SetParentRoot filters.NewFilter
       filters.StartSlot filters.EndSlot filters.ParentRoot
       kv.createBlockIndicesFromFilters kv.lookupValuesForIndicesMap app length].
  rewrite bool_decide_eq_true_2 by lia.
  by rewrite IntersectionByteSlices_single.
Qed.

(** The descendant check returns on a store whose slots descend. *)
Lemma verifyBlkDescendant_returns (s : forkchoice.Store) (root : string) (slot : Z) :
  descending ext s →
  (∀ b, kv.Block ext (forkchoice.db s)
          (ToBytes32 (ethpb.Root (forkchoice.finalizedCheckpt s))) = Ok (Some b) →
        0 ≤ ethpb.Slot b) →
  ∃ n : nat, ∀ m : nat, (n ≤ m)%nat →
    forkchoice.verifyBlkDescendant ext m s root slot ≠ Err ErrDiverged.
Proof.
  intros Hdesc Hfin. unfold forkchoice.verifyBlkDescendant.
  destruct (kv.Block ext (forkchoice.db s)
              (ToBytes32 (ethpb.Root (forkchoice.finalizedCheckpt s))))
    as [[fb|]|e] eqn:Hfb; cbn [mbind result_bind].
  - specialize (Hfin fb eq_refl).
    set (dist :=
      match kv.Block ext (forkchoice.db s) (ToBytes32 root) with
      | Ok (Some b) => Z.to_nat (ethpb.Slot b - ethpb.Slot fb + 1)
      | _ => O
      end).
    exists (S dist). intros m Hm.
    assert (forkchoice.ancestor ext (S dist) s root (ethpb.Slot fb) ≠ Err ErrDiverged)
      as Hret.
    { apply ancestor_returns; [done|done|].
      intros b Hb. subst dist. rewrite Hb. lia. }
    rewrite (ancestor_fuel_mono (S dist) m s root (ethpb.Slot fb) _ Hm eq_refl Hret).
    destruct (forkchoice.ancestor ext (S dist) s root (ethpb.Slot fb)) as [a|e];
      cbn [mbind result_bind].
    + by case_match.
    + congruence.
  - exists O. done.
  - exists O. intros m _. apply Block_error in Hfb. congruence.
Qed.

End AncestorFacts.

(** ** The worked chain, run *)

(** At genesis the head is the genesis block. *)
Example Head_at_genesis :
  forkchoice.Head scenario.ext 16 scenario.atGenesis
  = Ok (scenario.exSigningRoot scenario.G).
Proof. vm_compute. reflexivity. Qed.

(** A block that was not filed before it is handed to [OnBlock] is not
    found by the descendant check. *)
Example OnBlock_unfiled_block :
  (forkchoice.OnBlock scenario.ext 16 2000 scenario.blockA scenario.atGenesis).1
  = Err ErrNotDescendantOfFinalized.
Proof. vm_compute. reflexivity. Qed.

(** The slot-time boundary with genesis time 1000 and 6 seconds per slot:
    [blockA] of slot 6 passes at time 1036 and fails at time 1035. *)
Example OnBlock_slot_time_boundary :
  let s :=
    forkchoice.setDb (kv.SaveBlock scenario.ext scenario.blockA (forkchoice.db scenario.atGenesis))
      scenario.atGenesis in
  (forkchoice.OnBlock scenario.ext 16 1036 scenario.blockA s).1 = Ok tt
  ∧ (forkchoice.OnBlock scenario.ext 16 1035 scenario.blockA s).1 = Err ErrFutureSlot.
Proof. vm_compute. split; reflexivity. Qed.

(** Once epoch 1 is finalized a block of slot 6 is before the finalized
    slot. *)
Example OnBlock_before_finalized :
  (scenario.receive scenario.blockA
     (scenario.receive scenario.blockFin scenario.atGenesis).2).1
  = Err ErrBeforeFinalized.
Proof. vm_compute. reflexivity. Qed.

(** A parent root together with a range over the slots 7 to 9 selects
    nothing, although [blockX] and [blockD] meet both criteria: the roots
    filed under each slot of the range are intersected with one another. *)
Example Blocks_parent_and_range :
  kv.Blocks scenario.ext (forkchoice.db scenario.forked)
    (Some (filters.SetParentRoot (scenario.exSigningRoot scenario.blockA)
             (filters.SetEndSlot 9 (filters.SetStartSlot 7 filters.NewFilter))))
  = Ok [].
Proof. vm_compute. reflexivity. Qed.

(** * Properties of gossip validation *)

Section SyncFacts.
Variable o : sync.Oracles.

Lemma cacheHas_cacheSet (key : string) (w : sync.World) :
  sync.cacheHas key (sync.cacheSet key w) = true.
Proof.
  unfold sync.cacheHas, sync.cacheSet; simpl.
  rewrite lookup_insert_eq. by apply bool_decide_eq_true_2.
Qed.

Lemma cacheHas_emit (key : string) (e : sync.Event) (w : sync.World) :
  sync.cacheHas key (sync.emit e w) = sync.cacheHas key w.
Proof. reflexivity. Qed.

(** A slashing whose fingerprint is in the cache is dropped and nothing
    else happens. *)
Lemma validateProposerSlashing_seen (headState : option pb.BeaconState) (broadcastOk : bool)
    (slashing : ethpb.ProposerSlashing) (cacheKey : string) (w : sync.World) :
  sync.HashSlashing o slashing = Some cacheKey →
  sync.cacheHas cacheKey w = true →
  sync.validateProposerSlashing o headState broadcastOk (sync.MsgProposerSlashing slashing) w
  = (false, w).
Proof.
  intros Hkey Hseen. unfold sync.validateProposerSlashing, sync.propSlashingCacheKey.
  rewrite Hkey. cbv zeta. rewrite Hseen.
  by destruct (sync.cacheHas (sync.invalid o ++ cacheKey) w).
Qed.

(** What an accepting call does. *)
Lemma validateProposerSlashing_accepts (headState : option pb.BeaconState) (broadcastOk : bool)
    (slashing : ethpb.ProposerSlashing) (w w' : sync.World) :
  sync.validateProposerSlashing o headState broadcastOk (sync.MsgProposerSlashing slashing) w
  = (true, w') →
  ∃ cacheKey,
    sync.HashSlashing o slashing = Some cacheKey
    ∧ sync.seenProposerSlashings w' = <[cacheKey := true]> (sync.seenProposerSlashings w)
    ∧ sync.trace w'
      = sync.trace w ++ [sync.EvVerify slashing; sync.EvBroadcast slashing]
          ++ (if broadcastOk then [] else [sync.EvLogBroadcastFailure]).
Proof.
  unfold sync.validateProposerSlashing, sync.propSlashingCacheKey.
  destruct (sync.HashSlashing o slashing) as [cacheKey|]; [|congruence].
  destruct (sync.cacheHas _ w); [congruence|].
  destruct (sync.cacheHas cacheKey w); [congruence|].
  destruct headState as [state|]; [|congruence].
  destruct (sync.VerifyProposerSlashing o state slashing); simpl; [|congruence].
  destruct broadcastOk; intros H; inversion H; subst; exists cacheKey; simpl;
    repeat split; by rewrite <- ?app_assoc.
Qed.

End SyncFacts.

(** * The claims of the specification *)

(** C1, on the code: [OnBlock] of a block whose post-state finalizes epoch 1
    at the block's own root succeeds and raises the store's finalized epoch
    from 0 to 1, but the store's finalized root is still the genesis root,
    which differs from the root of the post-state's finalized checkpoint. *)
Theorem OnBlock_finalized_root_not_replaced :
  let run := scenario.receive scenario.blockFin scenario.atGenesis in
  let postFinalized :=
    {| ethpb.Epoch := 1; ethpb.Root := scenario.exSigningRoot scenario.blockFin |} in
  run.1 = Ok tt
  ∧ (pb.FinalizedCheckpoint <$> scenario.exTransition scenario.genesisState scenario.blockFin)
    = Some postFinalized
  ∧ ethpb.Epoch (forkchoice.finalizedCheckpt scenario.atGenesis) = 0
  ∧ ethpb.Epoch (forkchoice.finalizedCheckpt run.2) = 1
  ∧ ethpb.Root (forkchoice.finalizedCheckpt run.2) = scenario.exSigningRoot scenario.G
  ∧ ethpb.Root (forkchoice.finalizedCheckpt run.2) ≠ ethpb.Root postFinalized.
Proof. vm_compute. repeat split; congruence. Qed.

(** C2, on the code: with the justified checkpoint at epoch 1 (justified
    slot 8) and root [blockA], the children [Head] considers under [blockA]
    are [blockX] of slot 7 and [blockD] of slot 9, and [Head] returns
    [blockX], a child whose slot is below the justified slot. *)
Theorem Head_considers_child_below_justified_slot :
  forkchoice.justifiedCheckpt scenario.forked
    = {| ethpb.Epoch := 1; ethpb.Root := scenario.exSigningRoot scenario.blockA |}
  ∧ ethpb.Slot scenario.blockX
    < ethpb.Epoch (forkchoice.justifiedCheckpt scenario.forked) * SlotsPerEpoch scenario.ext
  ∧ forkchoice.headChildren scenario.ext scenario.forked
      (scenario.exSigningRoot scenario.blockA)
    = Ok [scenario.exSigningRoot scenario.blockX; scenario.exSigningRoot scenario.blockD]
  ∧ forkchoice.Head scenario.ext 16 scenario.forked
    = Ok (scenario.exSigningRoot scenario.blockX).
Proof. vm_compute. repeat split; congruence. Qed.

(** C3, on the code: with the justified state present and the latest vote
    of the one active validator pointing to a root the store holds no block
    for, [latestAttestingBalance] of that root is the validator's effective
    balance, not 0. *)
Theorem latestAttestingBalance_absent_target_counts_votes :
  let missing := ToBytes32 "unknown" in
  let s :=
    forkchoice.setDb
      (kv.SaveValidatorLatestVote 0 {| pb.Epoch := 0; pb.Root := missing |}
         (forkchoice.db scenario.atGenesis))
      scenario.atGenesis in
  kv.HasBlock (forkchoice.db s) missing = false
  ∧ forkchoice.latestAttestingBalance scenario.ext 16 s missing = Ok 32000000000.
Proof. vm_compute. split; reflexivity. Qed.

(** C4, on the code: for a root that was never saved [HasBlock] is false and
    [Block] returns, without error, a pointer to a block with default
    fields rather than [nil]; for the saved genesis root it returns the
    genesis block. *)
Theorem Block_absent_is_default_block :
  let k := forkchoice.db scenario.atGenesis in
  let missing := ToBytes32 "unknown" in
  kv.HasBlock k missing = false
  ∧ kv.Block scenario.ext k missing = Ok (Some ethpb.emptyBlock)
  ∧ kv.Block scenario.ext k (scenario.exSigningRoot scenario.G) = Ok (Some scenario.G).
Proof. vm_compute. repeat split; reflexivity. Qed.

(** C5, on the code: a start slot given without an end slot is not applied.
    With parent root [blockA] and start slot 9, [Blocks] returns [blockX]
    of slot 7 next to [blockD]; with start slot 0 alone it returns no block
    although four are stored, which [Blocks] with a [nil] filter lists. *)
Theorem Blocks_start_slot_alone_not_applied :
  let k := forkchoice.db scenario.forked in
  kv.Blocks scenario.ext k
    (Some (filters.SetStartSlot 9
             (filters.SetParentRoot (scenario.exSigningRoot scenario.blockA)
                filters.NewFilter)))
  = Ok [scenario.blockX; scenario.blockD]
  ∧ ethpb.Slot scenario.blockX < 9
  ∧ kv.Blocks scenario.ext k (Some (filters.SetStartSlot 0 filters.NewFilter)) = Ok []
  ∧ kv.Blocks scenario.ext k None
    = Ok [scenario.blockA; scenario.blockD; scenario.G; scenario.blockX].
Proof. vm_compute. repeat split; reflexivity. Qed.

(** C8, on the code: for a stored block of slot 3 whose parent is not in
    the store, [ancestor] at slot 0 returns the parent root, a root the
    store holds no block for, instead of [nil]. *)
Theorem ancestor_returns_missing_parent_at_slot_0 :
  let s :=
    forkchoice.setDb (kv.SaveBlock scenario.ext scenario.orphan (forkchoice.db scenario.atGenesis))
      scenario.atGenesis in
  kv.HasBlock (forkchoice.db s) (scenario.exSigningRoot scenario.orphan) = true
  ∧ kv.HasBlock (forkchoice.db s) (ethpb.ParentRoot scenario.orphan) = false
  ∧ forkchoice.ancestor scenario.ext 16 s (scenario.exSigningRoot scenario.orphan) 0
    = Ok (Some (ethpb.ParentRoot scenario.orphan)).
Proof. vm_compute. repeat split; reflexivity. Qed.

(** C10, on the code: after [SaveBlock] of [blockA] and [SaveHeadBlockRoot]
    of its signing root, the root is filed under the head key of the blocks
    bucket, the validators bucket has no head key, and [HeadBlock] returns a
    block with default fields, not [blockA]. *)
Theorem HeadBlock_does_not_read_saved_head_root :
  let root := scenario.exSigningRoot scenario.blockA in
  let k :=
    kv.SaveHeadBlockRoot scenario.ext root
      (kv.SaveBlock scenario.ext scenario.blockA (forkchoice.db scenario.atGenesis)) in
  kv.Block scenario.ext k root = Ok (Some scenario.blockA)
  ∧ kv.blocksBucket k !! headBlockRootKey scenario.ext = Some root
  ∧ kv.validatorsBucket k !! headBlockRootKey scenario.ext = None
  ∧ kv.HeadBlock scenario.ext k = Ok (Some ethpb.emptyBlock)
  ∧ ethpb.emptyBlock ≠ scenario.blockA.
Proof. vm_compute. repeat split; congruence. Qed.

(** C9: [OnBlock] fails with error [e] exactly when [e] is the error of the
    first failing check in the order pre-state, slot-time,
    finalized-descendant, post-finalized-epoch, state transition; the store
    it leaves (database and both checkpoints) is then the store it was
    given. *)
Theorem OnBlock_fails_at_first_failing_check_without_writing
    (ext : Externals) (fuel : nat) (now : Z) (b : ethpb.BeaconBlock)
    (s s' : forkchoice.Store) (e : Error) :
  forkchoice.OnBlock ext fuel now b s = (Err e, s')
  ↔ firstFailure ext fuel now b s = Some e ∧ s' = s.
Proof.
  destruct (OnBlock_cases ext fuel now b s)
    as [(e0 & Hff & Hrun)|(pre & post & Hff & _ & _ & Hrun)]; rewrite Hrun, Hff.
  - split.
    + intros H. inversion H. by subst.
    + intros [H ->]. by inversion H.
  - split; [intros H; discriminate|intros [H _]; discriminate].
Qed.

Lemma OnBlock_fails_at_first_failing_check_without_writing_witness :
  let s :=
    forkchoice.setDb
      (kv.SaveBlock scenario.ext scenario.blockBad (forkchoice.db scenario.atGenesis))
      scenario.atGenesis in
  firstFailure scenario.ext 16 2000 scenario.blockBad s = Some ErrStateTransitionFailed
  ∧ forkchoice.OnBlock scenario.ext 16 2000 scenario.blockBad s
    = (Err ErrStateTransitionFailed, s).
Proof.
  split; [vm_compute; reflexivity|].
  apply (OnBlock_fails_at_first_failing_check_without_writing scenario.ext 16 2000
           scenario.blockBad).
  split; [vm_compute; reflexivity|reflexivity].
Defined.

(** C6: when a call of [validateProposerSlashing] on a slashing returns
    true, that call ran the predicate and then called the Broadcaster once,
    and every later call on the same slashing made while the cache still
    holds what it held returns false and leaves the process as it was: no
    predicate run, no broadcast, no cache write. *)
Theorem validateProposerSlashing_true_at_most_once
    (o : sync.Oracles) (slashing : ethpb.ProposerSlashing)
    (headState1 headState2 : option pb.BeaconState) (broadcastOk1 broadcastOk2 : bool)
    (w w1 w2 : sync.World) :
  sync.validateProposerSlashing o headState1 broadcastOk1
    (sync.MsgProposerSlashing slashing) w = (true, w1) →
  sync.seenProposerSlashings w1 ⊆ sync.seenProposerSlashings w2 →
  eventsOf w w1
    = [sync.EvVerify slashing; sync.EvBroadcast slashing]
        ++ (if broadcastOk1 then [] else [sync.EvLogBroadcastFailure])
  ∧ sync.validateProposerSlashing o headState2 broadcastOk2
      (sync.MsgProposerSlashing slashing) w2 = (false, w2).
Proof.
  intros Hfirst Hkept.
  destruct (validateProposerSlashing_accepts o _ _ _ _ _ Hfirst)
    as (cacheKey & Hkey & Hcache & Htrace).
  split.
  - unfold eventsOf. rewrite Htrace. apply drop_app_length.
  - apply (validateProposerSlashing_seen o _ _ _ cacheKey); [done|].
    unfold sync.cacheHas. apply bool_decide_eq_true_2. exists true.
    eapply lookup_weaken; [|exact Hkept].
    rewrite Hcache. apply lookup_insert_eq.
Qed.

Lemma validateProposerSlashing_true_at_most_once_witness :
  let first :=
    sync.validateProposerSlashing scenario.oracles (Some scenario.genesisState) true
      (sync.MsgProposerSlashing scenario.slashingX) scenario.unseen in
  first.1 = true
  ∧ eventsOf scenario.unseen first.2
    = [sync.EvVerify scenario.slashingX; sync.EvBroadcast scenario.slashingX]
  ∧ sync.validateProposerSlashing scenario.oracles (Some scenario.genesisState) true
      (sync.MsgProposerSlashing scenario.slashingX) first.2 = (false, first.2).
Proof.
  split; [reflexivity|].
  apply (validateProposerSlashing_true_at_most_once scenario.oracles scenario.slashingX
           (Some scenario.genesisState) (Some scenario.genesisState) true true
           scenario.unseen); [reflexivity|done].
Defined.

(** C7 as stated fails: the slashing [slashingX] is accepted although its
    broadcast fails, and the next call with it does not call the
    Broadcaster. *)
Lemma lost_broadcast_is_not_retried :
  ¬ retriedAfterLostBroadcast scenario.oracles scenario.genesisState
      scenario.slashingX scenario.unseen.
Proof.
  intros [_ Hretried]. vm_compute in Hretried. by apply elem_of_nil in Hretried.
Qed.

(** C7, amended: for a slashing that is accepted when its broadcast
    succeeds, the verdict is also true when the broadcast fails and the
    seen-cache is the same in both cases (the fingerprint is recorded before
    the broadcast); whenever the same slashing is received again it is
    dropped by the seen-cache and leaves the process as it was, so the
    broadcast is not retried. *)
Theorem lost_broadcast_keeps_verdict_and_cache
    (o : sync.Oracles) (state : pb.BeaconState) (slashing : ethpb.ProposerSlashing)
    (w wOk : sync.World) :
  sync.validateProposerSlashing o (Some state) true
    (sync.MsgProposerSlashing slashing) w = (true, wOk) →
  ∃ wLost,
    sync.validateProposerSlashing o (Some state) false
      (sync.MsgProposerSlashing slashing) w = (true, wLost)
    ∧ sync.seenProposerSlashings wLost = sync.seenProposerSlashings wOk
    ∧ ∀ headState broadcastOk,
        sync.validateProposerSlashing o headState broadcastOk
          (sync.MsgProposerSlashing slashing) wLost = (false, wLost).
Proof.
  intros Hok.
  destruct (validateProposerSlashing_accepts o _ _ _ _ _ Hok)
    as (cacheKey & Hkey & Hcache & _).
  revert Hok. unfold sync.validateProposerSlashing at 1 2, sync.propSlashingCacheKey.
  rewrite Hkey. cbv zeta.
  destruct (sync.cacheHas (sync.invalid o ++ cacheKey) w); [congruence|].
  destruct (sync.cacheHas cacheKey w); [congruence|].
  destruct (sync.VerifyProposerSlashing o state slashing); simpl; [|congruence].
  intros Hok. inversion Hok; subst wOk. clear Hok.
  eexists. split; [reflexivity|]. split; [reflexivity|].
  intros headState broadcastOk.
  apply (validateProposerSlashing_seen o _ _ _ cacheKey); [done|].
  rewrite !cacheHas_emit. apply cacheHas_cacheSet.
Qed.

Lemma lost_broadcast_keeps_verdict_and_cache_witness :
  sync.validateProposerSlashing scenario.oracles (Some scenario.genesisState) true
    (sync.MsgProposerSlashing scenario.slashingX) scenario.unseen
  = (true,
     (sync.validateProposerSlashing scenario.oracles (Some scenario.genesisState) true
        (sync.MsgProposerSlashing scenario.slashingX) scenario.unseen).2)
  ∧ ∃ wLost,
      sync.validateProposerSlashing scenario.oracles (Some scenario.genesisState) false
        (sync.MsgProposerSlashing scenario.slashingX) scenario.unseen = (true, wLost)
      ∧ sync.seenProposerSlashings wLost
        = sync.seenProposerSlashings
            (sync.validateProposerSlashing scenario.oracles (Some scenario.genesisState) true
               (sync.MsgProposerSlashing scenario.slashingX) scenario.unseen).2
      ∧ ∀ headState broadcastOk,
          sync.validateProposerSlashing scenario.oracles headState broadcastOk
            (sync.MsgProposerSlashing scenario.slashingX) wLost = (false, wLost).
Proof.
  split; [reflexivity|].
  apply (lost_broadcast_keeps_verdict_and_cache scenario.oracles scenario.genesisState
           scenario.slashingX scenario.unseen).
  reflexivity.
Defined.

(** * Further properties of the store *)

Section ResultFacts.
Context {A B : Type} (f : A → result B).

Lemma mapM_result_Ok (l : list A) (bs : list B) :
  mapM f l = Ok bs → Forall2 (fun x y => f x = Ok y) l bs.
Proof.
  revert bs. induction l as [|x l IH]; intros bs H.
  - inversion H. constructor.
  - cbn in H. destruct (f x) as [y|e] eqn:Hx; cbn in H; [|discriminate].
    destruct (mapM f l) as [ys|e]; cbn in H; [|discriminate].
    inversion H; subst. constructor; [done|by apply IH].
Qed.

Lemma mapM_result_total (l : list A) :
  (∀ x, x ∈ l → ∃ y, f x = Ok y) → ∃ bs, mapM f l = Ok bs.
Proof.
  induction l as [|x l IH]; intros H.
  - by exists [].
  - destruct (H x) as [y Hy]; [left|].
    destruct IH as [ys Hys]; [intros; apply H; by right|].
    exists (y :: ys). cbn. rewrite Hy. cbn. rewrite Hys. reflexivity.
Qed.

Lemma mapM_result_Err (l : list A) (x : A) (e0 : Error) :
  x ∈ l → f x = Err e0 → (∀ x' e, f x' = Err e → e = e0) → mapM f l = Err e0.
Proof.
  intros Hin Hx Hall. induction l as [|a l IH]; [by apply elem_of_nil in Hin|].
  cbn. destruct (f a) as [y|e] eqn:Ha; cbn.
  - apply elem_of_cons in Hin as [->|Hin]; [congruence|].
    rewrite (IH Hin). reflexivity.
  - by rewrite (Hall _ _ Ha).
Qed.

Lemma mapM_result_elem_of (l : list A) (bs : list B) (b : B) :
  mapM f l = Ok bs → (b ∈ bs ↔ ∃ x, x ∈ l ∧ f x = Ok b).
Proof.
  intros H. apply mapM_result_Ok in H.
  induction H as [|x y l bs Hxy _ IH].
  - split; [by intros ?%elem_of_nil|by intros (x & ?%elem_of_nil & _)].
  - rewrite elem_of_cons, IH. split.
    + intros [->|(x' & Hin & Hx')]; [exists x; split; [left|done]|].
      exists x'. split; [by right|done].
    + intros (x' & [->|Hin]%elem_of_cons & Hx'); [left; congruence|right; eauto].
Qed.

Lemma mapM_result_length (l : list A) (bs : list B) :
  mapM f l = Ok bs → length bs = length l.
Proof. intros H. apply mapM_result_Ok in H. symmetry. by eapply Forall2_length. Qed.

End ResultFacts.

Section CursorFacts.
Context {K V : Type} (leb : K → K → bool).

Lemma insertEntry_perm (e : K * V) (l : list (K * V)) :
  insertEntry leb e l ≡ₚ e :: l.
Proof.
  induction l as [|e' l IH]; [done|].
  cbn. destruct (leb e.1 e'.1); [done|].
  rewrite IH. apply Permutation_swap.
Qed.

Lemma sortEntries_perm (l : list (K * V)) : sortEntries leb l ≡ₚ l.
Proof.
  induction l as [|e l IH]; [done|].
  cbn. rewrite insertEntry_perm. by rewrite IH.
Qed.

End CursorFacts.

Section SlotCursor.
Context {V : Type}.

Lemma insertEntry_sorted (e : Z * V) (l : list (Z * V)) :
  StronglySorted keyLe l → StronglySorted keyLe (insertEntry Z.leb e l).
Proof.
  induction 1 as [|e' l Hs IH Hall]; cbn.
  - repeat constructor.
  - destruct (Z.leb_spec e.1 e'.1) as [Hle|Hgt].
    + constructor; [by constructor|].
      constructor; [done|].
      eapply Forall_impl; [exact Hall|]. unfold keyLe. intros; simpl in *; lia.
    + constructor; [done|].
      rewrite insertEntry_perm. constructor; [unfold keyLe; lia|done].
Qed.

Lemma sortEntries_sorted (l : list (Z * V)) :
  StronglySorted keyLe (sortEntries Z.leb l).
Proof.
  induction l as [|e l IH]; cbn; [constructor|by apply insertEntry_sorted].
Qed.

Lemma seekEntries_elem_of (lo : Z) (l : list (Z * V)) (e : Z * V) :
  StronglySorted keyLe l →
  (e ∈ seekEntries Z.leb lo l ↔ e ∈ l ∧ lo ≤ e.1).
Proof.
  induction 1 as [|e' l Hs IH Hall]; cbn.
  - split; [by intros ?%elem_of_nil|by intros [?%elem_of_nil _]].
  - destruct (Z.leb_spec lo e'.1) as [Hle|Hgt].
    + split; [|by intros [? _]].
      intros Hin. split; [done|].
      apply elem_of_cons in Hin as [->|Hin]; [done|].
      rewrite Forall_forall in Hall. specialize (Hall _ Hin). unfold keyLe in Hall. lia.
    + rewrite IH, elem_of_cons. split; [intros [? ?]; by auto|].
      intros [[->|?] ?]; [lia|done].
Qed.

Lemma seekEntries_sorted (lo : Z) (l : list (Z * V)) :
  StronglySorted keyLe l → StronglySorted keyLe (seekEntries Z.leb lo l).
Proof.
  induction 1 as [|e' l Hs IH Hall]; cbn; [constructor|].
  destruct (lo <=? e'.1); [by constructor|done].
Qed.

Lemma scanEntries_elem_of (hi : Z) (l : list (Z * V)) (v : V) :
  StronglySorted keyLe l →
  (v ∈ scanEntries Z.leb hi l ↔ ∃ key, (key, v) ∈ l ∧ key ≤ hi).
Proof.
  intros Hs. revert v. induction Hs as [|[k' v'] l Hs IH Hall]; intros v; cbn.
  - split; [by intros ?%elem_of_nil|by intros (? & ?%elem_of_nil & _)].
  - destruct (Z.leb_spec k' hi) as [Hle|Hgt].
    + rewrite elem_of_cons, IH. split.
      * intros [->|(key & Hin & Hk)].
        -- exists k'. split; [left|done].
        -- exists key. split; [by right|done].
      * intros (key & [Heq|Hin]%elem_of_cons & Hk).
        -- left. congruence.
        -- right. eauto.
    + split; [by intros ?%elem_of_nil|].
      intros (key & [Heq|Hin]%elem_of_cons & Hk).
      * inversion Heq; subst. lia.
      * rewrite Forall_forall in Hall. specialize (Hall _ Hin).
        unfold keyLe in Hall. simpl in Hall. lia.
Qed.

End SlotCursor.


Lemma decodeBlock_error (ext : Externals) (enc : string) (e : Error) :
  kv.decodeBlock ext enc = Err e → e = ErrCorruptEncoding.
Proof. unfold kv.decodeBlock. destruct (Unmarshal ext enc); congruence. Qed.

(** X1: a block saved with [SaveBlock] is read back by [Block] under its
    signing root when its encoding decodes to it, [HasBlock] holds for that
    root, and what [Block] and [HasBlock] answer for any other root is what
    they answered before. *)
Theorem SaveBlock_then_Block (ext : Externals) (k : kv.Store) (b : ethpb.BeaconBlock) :
  Unmarshal ext (Marshal ext b) = Some b →
  kv.Block ext (kv.SaveBlock ext b k) (SigningRoot ext b) = Ok (Some b)
  ∧ kv.HasBlock (kv.SaveBlock ext b k) (SigningRoot ext b) = true
  ∧ ∀ root, root ≠ SigningRoot ext b →
      kv.Block ext (kv.SaveBlock ext b k) root = kv.Block ext k root
      ∧ kv.HasBlock (kv.SaveBlock ext b k) root = kv.HasBlock k root.
Proof.
  intros Hcodec. split; [by apply Block_SaveBlock|]. split; [apply HasBlock_SaveBlock|].
  intros root Hne. unfold kv.Block, kv.HasBlock, kv.SaveBlock, kv.putBlocksBucket; simpl.
  by rewrite lookup_insert_ne.
Qed.

Lemma SaveBlock_then_Block_witness :
  Unmarshal scenario.ext (Marshal scenario.ext scenario.blockA) = Some scenario.blockA
  ∧ kv.Block scenario.ext (kv.SaveBlock scenario.ext scenario.blockA kv.emptyStore)
      (SigningRoot scenario.ext scenario.blockA) = Ok (Some scenario.blockA).
Proof.
  split; [reflexivity|].
  apply (SaveBlock_then_Block scenario.ext kv.emptyStore scenario.blockA). reflexivity.
Defined.

Lemma HasBlock_SaveBlock_mono (ext : Externals) (k : kv.Store) (b : ethpb.BeaconBlock) (root : string) :
  kv.HasBlock k root = true → kv.HasBlock (kv.SaveBlock ext b k) root = true.
Proof.
  unfold kv.HasBlock, kv.SaveBlock, kv.putBlocksBucket; simpl.
  intros H%bool_decide_eq_true. apply bool_decide_eq_true.
  destruct (decide (SigningRoot ext b = root)) as [->|Hne].
  - rewrite lookup_insert_eq. eauto.
  - by rewrite lookup_insert_ne.
Qed.

Lemma HasBlock_SaveBlocks_mono (ext : Externals) (blocks : list ethpb.BeaconBlock) (k : kv.Store) (root : string) :
  kv.HasBlock k root = true → kv.HasBlock (kv.SaveBlocks ext blocks k) root = true.
Proof.
  revert k. induction blocks as [|b blocks IH]; intros k H; [done|].
  cbn. apply IH. by apply HasBlock_SaveBlock_mono.
Qed.

(** X2: after [SaveBlocks] every block of the batch is present under its
    signing root, and every root that was present before still is. *)
Theorem SaveBlocks_all_present (ext : Externals) (blocks : list ethpb.BeaconBlock) (k : kv.Store)
    (b : ethpb.BeaconBlock) :
  b ∈ blocks →
  kv.HasBlock (kv.SaveBlocks ext blocks k) (SigningRoot ext b) = true
  ∧ ∀ root, kv.HasBlock k root = true →
            kv.HasBlock (kv.SaveBlocks ext blocks k) root = true.
Proof.
  intros Hin. split; [|intros root; apply HasBlock_SaveBlocks_mono].
  revert k. induction blocks as [|b' blocks IH]; intros k;
    [by apply elem_of_nil in Hin|].
  cbn. apply elem_of_cons in Hin as [->|Hin].
  - apply HasBlock_SaveBlocks_mono, HasBlock_SaveBlock.
  - by apply IH.
Qed.

Lemma SaveBlocks_all_present_witness :
  scenario.blockX ∈ [scenario.blockA; scenario.blockX]
  ∧ kv.HasBlock
      (kv.SaveBlocks scenario.ext [scenario.blockA; scenario.blockX] kv.emptyStore)
      (SigningRoot scenario.ext scenario.blockX) = true.
Proof.
  assert (scenario.blockX ∈ [scenario.blockA; scenario.blockX]) as Hin
    by (apply list_elem_of_further, list_elem_of_here).
  split; [exact Hin|].
  exact (proj1 (SaveBlocks_all_present scenario.ext [scenario.blockA; scenario.blockX]
                  kv.emptyStore scenario.blockX Hin)).
Defined.

(** X3: when [DeleteBlock] succeeds the root is no longer present, the
    other entries of the blocks bucket and the validators, state and vote
    buckets are as before, and when the root was not present to begin with
    the whole store is as before. *)
Theorem DeleteBlock_removes_only_the_block (ext : Externals) (del : kv.IndexDeleter)
    (blockRoot : string) (k k' : kv.Store) :
  kv.DeleteBlock ext del blockRoot k = Ok k' →
  kv.HasBlock k' blockRoot = false
  ∧ (∀ root, root ≠ blockRoot → kv.blocksBucket k' !! root = kv.blocksBucket k !! root)
  ∧ kv.validatorsBucket k' = kv.validatorsBucket k
  ∧ kv.stateBucket k' = kv.stateBucket k
  ∧ kv.validatorLatestVoteBucket k' = kv.validatorLatestVoteBucket k
  ∧ (kv.HasBlock k blockRoot = false → k' = k).
Proof.
  unfold kv.DeleteBlock, kv.HasBlock.
  destruct (kv.blocksBucket k !! blockRoot) as [enc|] eqn:Hlook.
  - destruct (kv.decodeBlock ext enc) as [block|e]; cbn; [|discriminate].
    destruct (del _ _ _ _) as [indices|e]; cbn; [|discriminate].
    intros H. inversion H; subst k'; clear H. simpl.
    rewrite lookup_delete_eq.
    split; [apply bool_decide_eq_false_2; by intros [? ?]|].
    split; [intros root Hne; by rewrite lookup_delete_ne|].
    do 3 (split; [reflexivity|]).
    intros Habs. discriminate Habs.
  - intros H. inversion H; subst k'. rewrite Hlook.
    split; [apply bool_decide_eq_false_2; by intros [? ?]|].
    repeat split; done.
Qed.

Lemma DeleteBlock_removes_only_the_block_witness :
  match
    kv.DeleteBlock scenario.ext scenario.dropFromIndices
      (SigningRoot scenario.ext scenario.blockA)
      (kv.SaveBlock scenario.ext scenario.blockA (forkchoice.db scenario.atGenesis))
  with
  | Ok k' => kv.HasBlock k' (SigningRoot scenario.ext scenario.blockA) = false
  | Err _ => False
  end.
Proof.
  destruct (kv.DeleteBlock scenario.ext scenario.dropFromIndices
              (SigningRoot scenario.ext scenario.blockA)
              (kv.SaveBlock scenario.ext scenario.blockA (forkchoice.db scenario.atGenesis)))
    as [k'|e] eqn:Hdel.
  - exact (proj1 (DeleteBlock_removes_only_the_block scenario.ext scenario.dropFromIndices
                    _ _ _ Hdel)).
  - vm_compute in Hdel. discriminate Hdel.
Defined.

Lemma DeleteBlock_corrupt (ext : Externals) (del : kv.IndexDeleter) (blockRoot enc : string) (k : kv.Store) :
  kv.blocksBucket k !! blockRoot = Some enc →
  Unmarshal ext enc = None →
  kv.DeleteBlock ext del blockRoot k = Err ErrCorruptEncoding.
Proof.
  intros Hlook Hdec. unfold kv.DeleteBlock, kv.decodeBlock. by rewrite Hlook, Hdec.
Qed.

(** X4: a scan of all blocks ([Blocks] with a [nil] filter) hands every
    value of the blocks bucket to the decoder and fails as soon as one does
    not decode, whatever key it is filed under; in particular a head root
    written by [SaveHeadBlockRoot] that is not the encoding of a block makes
    the scan fail. *)
Theorem Blocks_all_fails_on_undecodable_entry (ext : Externals) (k : kv.Store) (key enc : string) :
  kv.blocksBucket k !! key = Some enc →
  Unmarshal ext enc = None →
  kv.Blocks ext k None = Err ErrCorruptEncoding.
Proof.
  intros Hlook Hdec. unfold kv.Blocks.
  apply (mapM_result_Err _ _ (key, enc)).
  - rewrite sortEntries_perm. by apply elem_of_map_to_list.
  - unfold kv.decodeBlock. simpl. by rewrite Hdec.
  - intros x e. apply decodeBlock_error.
Qed.

Lemma Blocks_all_fails_on_undecodable_entry_witness :
  let root := SigningRoot scenario.strict scenario.blockA in
  let k :=
    kv.SaveHeadBlockRoot scenario.strict root
      (kv.SaveBlock scenario.strict scenario.blockA kv.emptyStore) in
  kv.blocksBucket k !! headBlockRootKey scenario.strict = Some root
  ∧ Unmarshal scenario.strict root = None
  ∧ kv.Blocks scenario.strict k None = Err ErrCorruptEncoding.
Proof.
  split; [reflexivity|]. split; [reflexivity|].
  eapply (Blocks_all_fails_on_undecodable_entry scenario.strict _
            (headBlockRootKey scenario.strict)); reflexivity.
Defined.

(** X5: when every value of the blocks bucket decodes, [Blocks] with a [nil]
    filter succeeds with as many blocks as the bucket has entries, and a
    block is in the result exactly when it is the decoding of some entry. *)
Theorem Blocks_all_lists_every_entry (ext : Externals) (k : kv.Store) :
  (∀ key enc, kv.blocksBucket k !! key = Some enc → is_Some (Unmarshal ext enc)) →
  ∃ blocks,
    kv.Blocks ext k None = Ok blocks
    ∧ length blocks = size (kv.blocksBucket k)
    ∧ ∀ b, b ∈ blocks
           ↔ ∃ key enc, kv.blocksBucket k !! key = Some enc ∧ Unmarshal ext enc = Some b.
Proof.
  intros Hall. unfold kv.Blocks.
  set (entries := sortEntries String.leb (map_to_list (kv.blocksBucket k))).
  assert (∀ x, x ∈ entries ↔ kv.blocksBucket k !! x.1 = Some x.2) as Hentries.
  { intros [key enc]. unfold entries. rewrite sortEntries_perm.
    apply elem_of_map_to_list. }
  destruct (mapM_result_total (fun kv0 : string * string => kv.decodeBlock ext kv0.2) entries)
    as [blocks Hblocks].
  { intros x Hx. apply Hentries in Hx. destruct (Hall _ _ Hx) as [b Hb].
    exists b. unfold kv.decodeBlock. by rewrite Hb. }
  exists blocks. split; [done|]. split.
  - rewrite (mapM_result_length _ _ _ Hblocks). unfold entries.
    rewrite sortEntries_perm. apply length_map_to_list.
  - intros b. rewrite (mapM_result_elem_of _ _ _ b Hblocks). split.
    + intros ([key enc] & Hin & Hdec). exists key, enc.
      split; [by apply Hentries in Hin|].
      unfold kv.decodeBlock in Hdec. simpl in Hdec.
      destruct (Unmarshal ext enc); congruence.
    + intros (key & enc & Hlook & Hdec). exists (key, enc).
      split; [by apply Hentries|].
      unfold kv.decodeBlock. simpl. by rewrite Hdec.
Qed.

Lemma Blocks_all_lists_every_entry_witness :
  ∃ blocks,
    kv.Blocks scenario.ext (forkchoice.db scenario.atGenesis) None = Ok blocks
    ∧ length blocks = size (kv.blocksBucket (forkchoice.db scenario.atGenesis))
    ∧ ∀ b, b ∈ blocks
           ↔ ∃ key enc,
               kv.blocksBucket (forkchoice.db scenario.atGenesis) !! key = Some enc
               ∧ Unmarshal scenario.ext enc = Some b.
Proof.
  apply (Blocks_all_lists_every_entry scenario.ext (forkchoice.db scenario.atGenesis)).
  intros key enc _. simpl. unfold scenario.exUnmarshal. destruct enc; eauto.
Defined.


Lemma slotRange_elem_of (k : kv.Store) (lo hi : Z) (roots : list string) :
  roots ∈ kv.slotRange k lo hi
  ↔ ∃ slot, lo ≤ slot ≤ hi ∧ kv.blockSlotIndicesBucket k !! slot = Some roots.
Proof.
  unfold kv.slotRange.
  pose proof (sortEntries_sorted (map_to_list (kv.blockSlotIndicesBucket k))) as Hsorted.
  rewrite scanEntries_elem_of by by apply seekEntries_sorted.
  split.
  - intros (slot & Hin & Hhi). apply seekEntries_elem_of in Hin as [Hin Hlo]; [|done].
    rewrite sortEntries_perm in Hin. apply elem_of_map_to_list in Hin.
    exists slot. simpl in Hlo. split; [lia|done].
  - intros (slot & Hrange & Hlook). exists slot. split; [|lia].
    apply seekEntries_elem_of; [done|]. split; [|simpl; lia].
    rewrite sortEntries_perm. by apply elem_of_map_to_list.
Qed.

Lemma UnionByteSlices_elem_of (s : list (list string)) (x : string) :
  x ∈ sliceutil.UnionByteSlices s ↔ ∃ l, l ∈ s ∧ x ∈ l.
Proof.
  unfold sliceutil.UnionByteSlices. rewrite elem_of_remove_dups.
  rewrite list_elem_of_In, in_concat. split.
  - intros (l & Hl & Hx). exists l. by rewrite !list_elem_of_In.
  - intros (l & Hl & Hx). exists l. by rewrite <- !list_elem_of_In.
Qed.

(** X6: a query with a start and an end slot and no parent root, when it
    succeeds, returns exactly the decodings of the roots filed in the slot
    index under a slot between the two bounds, both included; a root the
    blocks bucket has no entry for is decoded from the empty encoding. *)
Theorem Blocks_slot_range (ext : Externals) (k : kv.Store) (lo hi : Z)
    (blocks : list ethpb.BeaconBlock) :
  kv.Blocks ext k
    (Some (filters.SetEndSlot hi (filters.SetStartSlot lo filters.NewFilter)))
  = Ok blocks →
  ∀ b, b ∈ blocks
       ↔ ∃ slot roots root,
           lo ≤ slot ≤ hi
           ∧ kv.blockSlotIndicesBucket k !! slot = Some roots
           ∧ root ∈ roots
           ∧ kv.decodeBlock ext (default EmptyString (kv.blocksBucket k !! root)) = Ok b.
Proof.
  unfold kv.Blocks. cbn [filters.SetEndSlot filters.SetStartSlot filters.NewFilter
    filters.StartSlot filters.EndSlot filters.ParentRoot
    kv.createBlockIndicesFromFilters kv.lookupValuesForIndicesMap length].
  rewrite bool_decide_eq_false_2 by lia.
  intros Hblocks b. rewrite (mapM_result_elem_of _ _ _ b Hblocks). split.
  - intros (root & Hroot & Hdec).
    apply UnionByteSlices_elem_of in Hroot as (roots & Hroots & Hin).
    apply slotRange_elem_of in Hroots as (slot & Hrange & Hlook).
    exists slot, roots, root. done.
  - intros (slot & roots & root & Hrange & Hlook & Hin & Hdec).
    exists root. split; [|done].
    apply UnionByteSlices_elem_of. exists roots. split; [|done].
    apply slotRange_elem_of. eauto.
Qed.

Lemma Blocks_slot_range_witness :
  kv.Blocks scenario.ext (forkchoice.db scenario.forked)
    (Some (filters.SetEndSlot 7 (filters.SetStartSlot 6 filters.NewFilter)))
  = Ok [scenario.blockA; scenario.blockX]
  ∧ ∀ b, b ∈ [scenario.blockA; scenario.blockX]
       ↔ ∃ slot roots root,
           6 ≤ slot ≤ 7
           ∧ kv.blockSlotIndicesBucket (forkchoice.db scenario.forked) !! slot = Some roots
           ∧ root ∈ roots
           ∧ kv.decodeBlock scenario.ext
               (default EmptyString
                  (kv.blocksBucket (forkchoice.db scenario.forked) !! root)) = Ok b.
Proof.
  assert (kv.Blocks scenario.ext (forkchoice.db scenario.forked)
            (Some (filters.SetEndSlot 7 (filters.SetStartSlot 6 filters.NewFilter)))
          = Ok [scenario.blockA; scenario.blockX]) as Hrun by (vm_compute; reflexivity).
  split; [exact Hrun|].
  exact (Blocks_slot_range scenario.ext _ 6 7 _ Hrun).
Defined.

Lemma addRoot_elem_of (root : string) (roots : list string) :
  root ∈ kv.addRoot root roots.
Proof.
  unfold kv.addRoot. case_bool_decide; [done|].
  apply elem_of_app. right. by left.
Qed.

(** X7: a block saved with [SaveBlock], whose encoding decodes to it, is
    among the blocks of every successful query for its parent root and of
    every successful query for a slot range that contains its slot. *)
Theorem SaveBlock_found_by_queries (ext : Externals) (k : kv.Store)
    (b : ethpb.BeaconBlock) (lo hi : Z) :
  Unmarshal ext (Marshal ext b) = Some b →
  lo ≤ ethpb.Slot b ≤ hi →
  (∀ blocks,
     kv.Blocks ext (kv.SaveBlock ext b k)
       (Some (filters.SetParentRoot (ethpb.ParentRoot b) filters.NewFilter)) = Ok blocks →
     b ∈ blocks)
  ∧ (∀ blocks,
       kv.Blocks ext (kv.SaveBlock ext b k)
         (Some (filters.SetEndSlot hi (filters.SetStartSlot lo filters.NewFilter)))
       = Ok blocks →
       b ∈ blocks).
Proof.
  intros Hcodec Hrange.
  assert (kv.decodeBlock ext
            (default EmptyString
               (kv.blocksBucket (kv.SaveBlock ext b k) !! SigningRoot ext b)) = Ok b)
    as Hdec.
  { unfold kv.SaveBlock, kv.putBlocksBucket, kv.decodeBlock; simpl.
    rewrite lookup_insert_eq. simpl. by rewrite Hcodec. }
  split.
  - intros blocks. unfold kv.Blocks.
    cbn [filters.SetParentRoot filters.NewFilter
      filters.StartSlot filters.EndSlot filters.ParentRoot
      kv.createBlockIndicesFromFilters kv.lookupValuesForIndicesMap length app].
    rewrite bool_decide_eq_true_2 by lia.
    rewrite IntersectionByteSlices_single.
    intros Hblocks. apply (mapM_result_elem_of _ _ _ b Hblocks).
    exists (SigningRoot ext b). split; [|exact Hdec].
    unfold kv.SaveBlock, kv.putBlocksBucket, kv.updateValueForIndicesMap; simpl.
    rewrite lookup_insert_eq. simpl. apply addRoot_elem_of.
  - intros blocks Hblocks.
    apply (Blocks_slot_range ext _ lo hi blocks Hblocks).
    eexists (ethpb.Slot b), _, (SigningRoot ext b).
    split; [done|]. split; [|split; [|exact Hdec]].
    + unfold kv.SaveBlock, kv.putBlocksBucket, kv.updateValueForIndicesMap; simpl.
      apply lookup_insert_eq.
    + apply addRoot_elem_of.
Qed.

Lemma SaveBlock_found_by_queries_witness :
  let k := kv.SaveBlock scenario.ext scenario.blockA (forkchoice.db scenario.atGenesis) in
  Unmarshal scenario.ext (Marshal scenario.ext scenario.blockA) = Some scenario.blockA
  ∧ 0 ≤ ethpb.Slot scenario.blockA ≤ 10
  ∧ kv.Blocks scenario.ext k
      (Some (filters.SetEndSlot 10 (filters.SetStartSlot 0 filters.NewFilter)))
    = Ok [scenario.G; scenario.blockA]
  ∧ scenario.blockA ∈ [scenario.G; scenario.blockA].
Proof.
  intros k.
  assert (0 ≤ ethpb.Slot scenario.blockA ≤ 10) as Hrange by (simpl; lia).
  assert (kv.Blocks scenario.ext k
            (Some (filters.SetEndSlot 10 (filters.SetStartSlot 0 filters.NewFilter)))
          = Ok [scenario.G; scenario.blockA]) as Hrun by (vm_compute; reflexivity).
  split; [reflexivity|]. split; [exact Hrange|]. split; [exact Hrun|].
  exact (proj2 (SaveBlock_found_by_queries scenario.ext (forkchoice.db scenario.atGenesis)
                  scenario.blockA 0 10 eq_refl Hrange) _ Hrun).
Defined.

(** * Further properties of the fork-choice walk *)

Lemma bytesGreater_false (a b : string) :
  bytesGreater a b = false ↔ OrderedTypeEx.String_as_OT.lt a b ∨ a = b.
Proof.
  unfold bytesGreater.
  destruct (String.compare a b) eqn:Hcmp.
  - apply OrderedTypeEx.String_as_OT.cmp_eq in Hcmp. split; auto.
  - apply OrderedTypeEx.String_as_OT.cmp_lt in Hcmp. split; auto.
  - split; [discriminate|]. intros [Hlt| ->].
    + apply OrderedTypeEx.String_as_OT.cmp_lt in Hlt.
      unfold OrderedTypeEx.String_as_OT.cmp in Hlt. congruence.
    + assert (String.compare b b = Eq) by by apply OrderedTypeEx.String_as_OT.cmp_eq.
      congruence.
Qed.

Lemma bytesGreater_true (a b : string) :
  bytesGreater a b = true ↔ OrderedTypeEx.String_as_OT.lt b a.
Proof.
  unfold bytesGreater. rewrite <- OrderedTypeEx.String_as_OT.cmp_lt.
  unfold OrderedTypeEx.String_as_OT.cmp. rewrite (String.compare_antisym b a).
  destruct (String.compare a b); simpl; split; congruence.
Qed.

Lemma bytesGreater_refl (a : string) : bytesGreater a a = false.
Proof. apply bytesGreater_false. by right. Qed.

Lemma bytesGreater_asym (a b : string) :
  bytesGreater a b = true → bytesGreater b a = false.
Proof. rewrite bytesGreater_true, bytesGreater_false. auto. Qed.

Lemma bytesGreater_trans (a b c : string) :
  bytesGreater a b = false → bytesGreater b c = false → bytesGreater a c = false.
Proof.
  rewrite !bytesGreater_false.
  intros [Hab| ->] [Hbc| ->]; auto.
  left. eapply OrderedTypeEx.String_as_OT.lt_trans; eauto.
Qed.

Lemma noBetter_refl (w : string → Z) (r : string) : noBetter w r r.
Proof. right. split; [done|apply bytesGreater_refl]. Qed.

Lemma noBetter_trans (w : string → Z) (a b c : string) :
  noBetter w a b → noBetter w b c → noBetter w a c.
Proof.
  unfold noBetter. intros [Hab|[Hab Hgab]] [Hbc|[Hbc Hgbc]]; try (left; lia).
  right. split; [lia|]. by eapply bytesGreater_trans.
Qed.

Lemma bestChild_elem_of (ext : Externals) (fuel : nat) (s : forkchoice.Store)
    (rest : list string) (highest : Z) (head r : string) :
  forkchoice.bestChild ext fuel s rest highest head = Ok r → r = head ∨ r ∈ rest.
Proof.
  revert highest head. induction rest as [|child rest IH]; intros highest head H.
  - cbn in H. left. congruence.
  - cbn in H.
    destruct (forkchoice.latestAttestingBalance ext fuel s child) as [balance|e];
      cbn in H; [|discriminate].
    destruct ((highest <? balance) || ((balance =? highest) && bytesGreater child head)).
    + apply IH in H as [->|Hin]; right; [left|by right].
    + apply IH in H as [->|Hin]; [by left|right; by right].
Qed.

Lemma bestChild_invariant (ext : Externals) (fuel : nat) (s : forkchoice.Store)
    (w : string → Z) (rest : list string) (head : string) :
  (∀ c, c ∈ rest → forkchoice.latestAttestingBalance ext fuel s c = Ok (w c)) →
  ∃ r, forkchoice.bestChild ext fuel s rest (w head) head = Ok r
       ∧ (r = head ∨ r ∈ rest)
       ∧ noBetter w head r
       ∧ ∀ c, c ∈ rest → noBetter w c r.
Proof.
  revert head. induction rest as [|child rest IH]; intros head Hw.
  - exists head. split; [done|]. split; [by left|]. split; [apply noBetter_refl|].
    by intros c ?%elem_of_nil.
  - cbn. rewrite (Hw child) by by left. cbn.
    assert (∀ c, c ∈ rest → forkchoice.latestAttestingBalance ext fuel s c = Ok (w c))
      as Hrest by (intros c Hc; apply Hw; by right).
    destruct ((w head <? w child) || ((w child =? w head) && bytesGreater child head))
      eqn:Hcond.
    + destruct (IH child Hrest) as (r & Hrun & Hin & Hchild & Hothers).
      assert (noBetter w head child) as Hhead.
      { apply orb_true_iff in Hcond as [Hlt|Htie].
        - left. lia.
        - apply andb_true_iff in Htie as [Heq Hgt]. right.
          split; [lia|by apply bytesGreater_asym]. }
      exists r. split; [done|]. split; [destruct Hin as [->|?]; right; [left|by right]|].
      split; [by eapply noBetter_trans|].
      intros c [->|Hc]%elem_of_cons; [done|by apply Hothers].
    + destruct (IH head Hrest) as (r & Hrun & Hin & Hhead & Hothers).
      assert (noBetter w child head) as Hchild.
      { apply orb_false_iff in Hcond as [Hlt Htie].
        destruct (Z.eq_dec (w child) (w head)) as [Heq|Hne]; [|left; lia].
        right. split; [done|].
        apply andb_false_iff in Htie as [Hne|Hgt]; [lia|done]. }
      exists r. split; [done|]. split; [destruct Hin as [->|?]; [by left|right; by right]|].
      split; [done|].
      intros c [->|Hc]%elem_of_cons; [by eapply noBetter_trans|by apply Hothers].
Qed.

(** X8: among several children whose attesting balances are [w], the loop
    of [Head] settles on one of them that no child beats: every child is
    lighter than the chosen one, or as heavy with a root that is not
    greater bytewise. *)
Theorem bestChild_is_heaviest_then_greatest_root (ext : Externals) (fuel : nat)
    (s : forkchoice.Store) (w : string → Z) (first : string) (rest : list string) :
  (∀ c, c ∈ first :: rest → forkchoice.latestAttestingBalance ext fuel s c = Ok (w c)) →
  ∃ r, forkchoice.bestChild ext fuel s rest (w first) first = Ok r
       ∧ r ∈ first :: rest
       ∧ ∀ c, c ∈ first :: rest → noBetter w c r.
Proof.
  intros Hw.
  destruct (bestChild_invariant ext fuel s w rest first) as (r & Hrun & Hin & Hfirst & Hrest).
  { intros c Hc. apply Hw. by right. }
  exists r. split; [done|]. split.
  - destruct Hin as [->|?]; [left|by right].
  - intros c [->|Hc]%elem_of_cons; [done|by apply Hrest].
Qed.

Lemma bestChild_is_heaviest_then_greatest_root_witness :
  let x := scenario.exSigningRoot scenario.blockX in
  let d := scenario.exSigningRoot scenario.blockD in
  (∀ c, c ∈ [d; x] →
        forkchoice.latestAttestingBalance scenario.ext 16 scenario.forked c = Ok 0)
  ∧ ∃ r, forkchoice.bestChild scenario.ext 16 scenario.forked [x] 0 d = Ok r
         ∧ r ∈ [d; x]
         ∧ ∀ c, c ∈ [d; x] → noBetter (fun _ => 0) c r.
Proof.
  intros x d.
  assert (∀ c, c ∈ [d; x] →
            forkchoice.latestAttestingBalance scenario.ext 16 scenario.forked c = Ok 0)
    as Hw.
  { intros c Hc. apply latestAttestingBalance_no_state. vm_compute. reflexivity. }
  split; [exact Hw|].
  exact (bestChild_is_heaviest_then_greatest_root scenario.ext 16 scenario.forked
           (fun _ => 0) d [x] Hw).
Defined.

Lemma headLoop_reaches_leaf (ext : Externals) (n fuel : nat) (s : forkchoice.Store)
    (head r : string) :
  forkchoice.headLoop ext n fuel s head = Ok r →
  rtc (childOf ext s) head r ∧ forkchoice.headChildren ext s r = Ok [].
Proof.
  revert head. induction n as [|n IH]; intros head H; [discriminate|].
  cbn [forkchoice.headLoop] in H.
  destruct (forkchoice.headChildren ext s head) as [[|first rest]|e] eqn:Hch;
    cbn [mbind result_bind] in H; [|  |discriminate].
  - inversion H; subst r. split; [constructor|done].
  - destruct rest as [|second rest].
    + cbn [mbind result_bind] in H. apply IH in H as [Hrtc Hleaf].
      split; [|done]. eapply rtc_l; [|exact Hrtc].
      exists [first]. split; [done|by left].
    + destruct (forkchoice.latestAttestingBalance ext fuel s first) as [highest|e];
        cbn [mbind result_bind] in H; [|discriminate].
      destruct (forkchoice.bestChild ext fuel s (second :: rest) highest first)
        as [head'|e] eqn:Hbest; cbn [mbind result_bind] in H; [|discriminate].
      apply IH in H as [Hrtc Hleaf]. split; [|done].
      eapply rtc_l; [|exact Hrtc].
      exists (first :: second :: rest). split; [done|].
      apply bestChild_elem_of in Hbest as [->|Hin]; [left|by right].
Qed.

(** X9: when [Head] returns a root, that root is reached from the root of
    the justified checkpoint by going from a block to one of its candidate
    children, zero or more times, and it has no candidate child itself. *)
Theorem Head_returns_leaf_below_justified (ext : Externals) (fuel : nat)
    (s : forkchoice.Store) (r : string) :
  forkchoice.Head ext fuel s = Ok r →
  rtc (childOf ext s) (ethpb.Root (forkchoice.justifiedCheckpt s)) r
  ∧ forkchoice.headChildren ext s r = Ok [].
Proof. apply headLoop_reaches_leaf. Qed.

Lemma Head_returns_leaf_below_justified_witness :
  forkchoice.Head scenario.ext 16 scenario.forked
  = Ok (scenario.exSigningRoot scenario.blockX)
  ∧ rtc (childOf scenario.ext scenario.forked)
      (ethpb.Root (forkchoice.justifiedCheckpt scenario.forked))
      (scenario.exSigningRoot scenario.blockX)
  ∧ forkchoice.headChildren scenario.ext scenario.forked
      (scenario.exSigningRoot scenario.blockX) = Ok [].
Proof.
  assert (forkchoice.Head scenario.ext 16 scenario.forked
          = Ok (scenario.exSigningRoot scenario.blockX)) as Hrun by (vm_compute; reflexivity).
  split; [exact Hrun|].
  exact (Head_returns_leaf_below_justified scenario.ext 16 scenario.forked _ Hrun).
Defined.

Lemma descendingCheck_sound (ext : Externals) (s : forkchoice.Store) :
  descendingCheck ext s = true → descending ext s.
Proof.
  unfold descendingCheck. intros Hcheck%bool_decide_eq_true root b p Hb Hp Hpos.
  unfold kv.Block in Hb.
  destruct (kv.blocksBucket (forkchoice.db s) !! root) as [enc|] eqn:Hlook.
  - specialize (Hcheck _ _ Hlook). cbn beta in Hcheck.
    unfold kv.decodeBlock in Hb.
    destruct (Unmarshal ext enc) as [b'|]; cbn in Hb; [|discriminate].
    inversion Hb; subst b'.
    destruct (Z.ltb_spec 0 (ethpb.Slot b)); [|lia].
    rewrite Hp in Hcheck. lia.
  - inversion Hb; subst b. simpl in Hpos. lia.
Qed.

(** X10: when [ancestor] returns, it has followed parent roots from the
    given root, zero or more times, to a root for which the store yields a
    block; if the result is a root it is that root and the block has the
    wanted slot, if the result is [nil] the block has a smaller slot. *)
Theorem ancestor_follows_parents (ext : Externals) (n : nat) (s : forkchoice.Store)
    (root : string) (slot : Z) (res : option string) :
  forkchoice.ancestor ext n s root slot = Ok res →
  ∃ r b,
    rtc (parentOf ext s) root r
    ∧ kv.Block ext (forkchoice.db s) (ToBytes32 r) = Ok (Some b)
    ∧ match res with
      | Some a => a = r ∧ ethpb.Slot b = slot
      | None => ethpb.Slot b < slot
      end.
Proof.
  revert root. induction n as [|n IH]; intros root H; [discriminate|].
  cbn [forkchoice.ancestor] in H.
  destruct (kv.Block ext (forkchoice.db s) (ToBytes32 root)) as [[b|]|e] eqn:Hb;
    cbn [mbind result_bind] in H; [| |discriminate].
  - destruct (Z.ltb_spec (ethpb.Slot b) slot) as [Hlt|Hge].
    + inversion H; subst res. exists root, b. split; [constructor|done].
    + destruct (Z.eqb_spec (ethpb.Slot b) slot) as [Heq|Hne].
      * inversion H; subst res. exists root, b. split; [constructor|done].
      * apply IH in H as (r & b' & Hrtc & Hb' & Hres).
        exists r, b'. split; [|done].
        eapply rtc_l; [|exact Hrtc]. by exists b.
  - by apply Block_never_nil in Hb.
Qed.

Lemma ancestor_follows_parents_witness :
  forkchoice.ancestor scenario.ext 16 scenario.forked
    (scenario.exSigningRoot scenario.blockD) 6
  = Ok (Some (scenario.exSigningRoot scenario.blockA))
  ∧ ∃ r b,
      rtc (parentOf scenario.ext scenario.forked) (scenario.exSigningRoot scenario.blockD) r
      ∧ kv.Block scenario.ext (forkchoice.db scenario.forked) (ToBytes32 r) = Ok (Some b)
      ∧ scenario.exSigningRoot scenario.blockA = r ∧ ethpb.Slot b = 6.
Proof.
  assert (forkchoice.ancestor scenario.ext 16 scenario.forked
            (scenario.exSigningRoot scenario.blockD) 6
          = Ok (Some (scenario.exSigningRoot scenario.blockA))) as Hrun
    by (vm_compute; reflexivity).
  split; [exact Hrun|].
  exact (ancestor_follows_parents scenario.ext 16 scenario.forked _ 6 _ Hrun).
Defined.

(** X11: on a store whose slots descend along parent pointers, [ancestor]
    for a slot that is not negative returns: from some budget on the result
    is the same whatever the budget, and it is not the exhaustion of the
    budget. *)
Theorem ancestor_returns_on_descending_store (ext : Externals) (s : forkchoice.Store)
    (root : string) (slot : Z) :
  descending ext s → 0 ≤ slot →
  ∃ (n : nat) (res : result (option string)),
    res ≠ Err ErrDiverged
    ∧ ∀ m : nat, (n ≤ m)%nat → forkchoice.ancestor ext m s root slot = res.
Proof.
  intros Hdesc Hslot.
  set (dist :=
    match kv.Block ext (forkchoice.db s) (ToBytes32 root) with
    | Ok (Some b) => Z.to_nat (ethpb.Slot b - slot + 1)
    | _ => O
    end).
  exists (S dist), (forkchoice.ancestor ext (S dist) s root slot).
  assert (forkchoice.ancestor ext (S dist) s root slot ≠ Err ErrDiverged) as Hret.
  { apply ancestor_returns; [done|done|].
    intros b Hb. subst dist. rewrite Hb. lia. }
  split; [done|]. intros m Hm.
  by apply (ancestor_fuel_mono ext (S dist) m).
Qed.

Lemma ancestor_returns_on_descending_store_witness :
  descending scenario.ext scenario.forked
  ∧ 0 ≤ 6
  ∧ ∃ (n : nat) (res : result (option string)),
      res ≠ Err ErrDiverged
      ∧ ∀ m : nat, (n ≤ m)%nat →
          forkchoice.ancestor scenario.ext m scenario.forked
            (scenario.exSigningRoot scenario.blockD) 6 = res.
Proof.
  assert (descending scenario.ext scenario.forked) as Hdesc
    by (apply descendingCheck_sound; vm_compute; reflexivity).
  split; [exact Hdesc|]. split; [lia|].
  apply (ancestor_returns_on_descending_store scenario.ext scenario.forked
           (scenario.exSigningRoot scenario.blockD) 6 Hdesc).
  lia.
Defined.

(** X12: after [GenesisStore] the justified and the finalized checkpoint
    are epoch 0 at the signing root of the genesis block, the genesis state
    is filed under that root, the root is present in the blocks bucket and
    the checkpoint lookup table maps the hash of the justified checkpoint to
    it; when moreover that root is not the zero root and nothing was filed
    under it in the parent-root index, [Head] returns it. *)
Theorem GenesisStore_then_Head (ext : Externals) (genesisState : pb.BeaconState)
    (s : forkchoice.Store) (n : nat) :
  let root := SigningRoot ext (blocks.NewGenesisBlock (HashTreeRoot ext genesisState)) in
  let s' := forkchoice.GenesisStore ext genesisState s in
  root ≠ ToBytes32 EmptyString →
  kv.parentRootIndicesBucket (forkchoice.db s) !! root = None →
  forkchoice.justifiedCheckpt s' = {| ethpb.Epoch := 0; ethpb.Root := root |}
  ∧ forkchoice.finalizedCheckpt s' = {| ethpb.Epoch := 0; ethpb.Root := root |}
  ∧ kv.State (forkchoice.db s') root = Some genesisState
  ∧ kv.HasBlock (forkchoice.db s') root = true
  ∧ forkchoice.checkptBlkRoot s' !! HashProto ext (forkchoice.justifiedCheckpt s') = Some root
  ∧ forkchoice.Head ext (S n) s' = Ok root.
Proof.
  intros root s' Hzero Hfree.
  split; [reflexivity|]. split; [reflexivity|].
  split; [apply lookup_insert_eq|].
  split; [apply HasBlock_SaveBlock|].
  split; [apply lookup_insert_eq|].
  unfold forkchoice.Head. cbn [forkchoice.headLoop].
  rewrite headChildren_all_children.
  replace (kv.parentRootIndicesBucket (forkchoice.db s')
             !! ethpb.Root (forkchoice.justifiedCheckpt s'))
    with (@None (list string)); [reflexivity|].
  symmetry. subst s'. unfold forkchoice.GenesisStore; simpl.
  rewrite lookup_insert_ne by (intros Heq; apply Hzero; symmetry; exact Heq).
  exact Hfree.
Qed.

Lemma GenesisStore_then_Head_witness :
  let root :=
    SigningRoot scenario.ext
      (blocks.NewGenesisBlock (HashTreeRoot scenario.ext scenario.genesisState)) in
  root ≠ ToBytes32 EmptyString
  ∧ kv.parentRootIndicesBucket (forkchoice.db scenario.fresh) !! root = None
  ∧ forkchoice.Head scenario.ext 1
      (forkchoice.GenesisStore scenario.ext scenario.genesisState scenario.fresh)
    = Ok root.
Proof.
  intros root.
  assert (root ≠ ToBytes32 EmptyString) as Hzero by (vm_compute; discriminate).
  assert (kv.parentRootIndicesBucket (forkchoice.db scenario.fresh) !! root = None)
    as Hfree by reflexivity.
  split; [exact Hzero|]. split; [exact Hfree|].
  apply (GenesisStore_then_Head scenario.ext scenario.genesisState scenario.fresh 0
           Hzero Hfree).
Defined.

Lemma sumAttestingBalances_no_votes (ext : Externals) (fuel : nat) (s : forkchoice.Store)
    (root : string) (st : pb.BeaconState) (wanted : option ethpb.BeaconBlock)
    (indices : list Z) (balances : Z) :
  (∀ i, i ∈ indices → kv.ValidatorLatestVote (forkchoice.db s) i = None) →
  forkchoice.sumAttestingBalances ext fuel s root st wanted indices balances = Ok balances.
Proof.
  induction indices as [|i indices IH]; intros Hvotes; [done|].
  cbn. rewrite (Hvotes i) by by left. apply IH. intros j Hj. apply Hvotes. by right.
Qed.

(** X13: when none of the validators active in the justified state has a
    latest vote, [latestAttestingBalance] is 0 for every root whose block
    lookup does not fail, whether or not a block is stored for the root. *)
Theorem latestAttestingBalance_without_votes (ext : Externals) (fuel : nat)
    (s : forkchoice.Store) (root : string) (wanted : option ethpb.BeaconBlock) :
  (∀ i, kv.ValidatorLatestVote (forkchoice.db s) i = None) →
  kv.Block ext (forkchoice.db s) (ToBytes32 root) = Ok wanted →
  forkchoice.latestAttestingBalance ext fuel s root = Ok 0.
Proof.
  intros Hvotes Hblock. unfold forkchoice.latestAttestingBalance.
  destruct (kv.State _ _) as [st|]; [|done].
  rewrite Hblock. cbn [mbind result_bind].
  apply sumAttestingBalances_no_votes. intros i _. apply Hvotes.
Qed.

Lemma latestAttestingBalance_without_votes_witness :
  (∀ i, kv.ValidatorLatestVote (forkchoice.db scenario.atGenesis) i = None)
  ∧ kv.Block scenario.ext (forkchoice.db scenario.atGenesis)
      (ToBytes32 (scenario.exSigningRoot scenario.G)) = Ok (Some scenario.G)
  ∧ forkchoice.latestAttestingBalance scenario.ext 16 scenario.atGenesis
      (scenario.exSigningRoot scenario.G) = Ok 0.
Proof.
  assert (∀ i, kv.ValidatorLatestVote (forkchoice.db scenario.atGenesis) i = None) as Hvotes
    by (intros i; apply lookup_empty).
  assert (kv.Block scenario.ext (forkchoice.db scenario.atGenesis)
            (ToBytes32 (scenario.exSigningRoot scenario.G)) = Ok (Some scenario.G)) as Hblock
    by (vm_compute; reflexivity).
  split; [exact Hvotes|]. split; [exact Hblock|].
  exact (latestAttestingBalance_without_votes scenario.ext 16 scenario.atGenesis _ _
           Hvotes Hblock).
Defined.

(** * Further properties of block admission *)

(** X14: whatever [OnBlock] returns, the epochs of the justified and of the
    finalized checkpoint of the store it leaves are at least what they
    were, and the checkpoint lookup table [checkptBlkRoot] is what it was:
    [OnBlock] never adds the root of a new justified checkpoint to it. *)
Theorem OnBlock_checkpoints_never_regress (ext : Externals) (fuel : nat) (now : Z)
    (b : ethpb.BeaconBlock) (s s' : forkchoice.Store) (r : result unit) :
  forkchoice.OnBlock ext fuel now b s = (r, s') →
  ethpb.Epoch (forkchoice.justifiedCheckpt s) ≤ ethpb.Epoch (forkchoice.justifiedCheckpt s')
  ∧ ethpb.Epoch (forkchoice.finalizedCheckpt s) ≤ ethpb.Epoch (forkchoice.finalizedCheckpt s')
  ∧ forkchoice.checkptBlkRoot s' = forkchoice.checkptBlkRoot s.
Proof.
  intros H.
  destruct (OnBlock_cases ext fuel now b s) as [(e & _ & He)|(pre & post & _ & _ & _ & Hok)].
  - rewrite He in H. inversion H; subst. repeat split; first [reflexivity|lia].
  - rewrite Hok in H. inversion H; subst. unfold accepted. cbv zeta.
    repeat case_match; simpl in *;
      repeat match goal with
             | Hlt : (_ <? _) = true |- _ => apply Z.ltb_lt in Hlt
             | Hge : (_ <? _) = false |- _ => apply Z.ltb_ge in Hge
             end;
      repeat split; first [reflexivity|lia].
Qed.

Lemma OnBlock_checkpoints_never_regress_witness :
  let run := scenario.receive scenario.blockFin scenario.atGenesis in
  run.1 = Ok tt
  ∧ ethpb.Epoch (forkchoice.finalizedCheckpt scenario.atGenesis)
    ≤ ethpb.Epoch (forkchoice.finalizedCheckpt run.2).
Proof.
  split; [vm_compute; reflexivity|].
  refine (proj1 (proj2 (OnBlock_checkpoints_never_regress scenario.ext 16 2000
                          scenario.blockFin
                          (forkchoice.setDb
                             (kv.SaveBlock scenario.ext scenario.blockFin
                                (forkchoice.db scenario.atGenesis)) scenario.atGenesis)
                          _ _ _))).
  apply surjective_pairing.
Defined.

Lemma accepted_db (ext : Externals) (b : ethpb.BeaconBlock) (post : pb.BeaconState)
    (s : forkchoice.Store) :
  forkchoice.db (accepted ext b post s)
  = kv.SaveState post (SigningRoot ext b) (kv.SaveBlock ext b (forkchoice.db s)).
Proof. unfold accepted. cbv zeta. by repeat case_match. Qed.

(** X15: when [OnBlock] succeeds, the pre-state was filed under the parent
    root of the block, the state transition of the pre-state and the block
    yielded a post-state, and in the store [OnBlock] leaves the block is
    present under its signing root and the post-state is filed under that
    root. *)
Theorem OnBlock_success_persists (ext : Externals) (fuel : nat) (now : Z)
    (b : ethpb.BeaconBlock) (s s' : forkchoice.Store) :
  forkchoice.OnBlock ext fuel now b s = (Ok tt, s') →
  ∃ preState postState,
    kv.State (forkchoice.db s) (ToBytes32 (ethpb.ParentRoot b)) = Some preState
    ∧ ExecuteStateTransition ext preState b = Some postState
    ∧ kv.HasBlock (forkchoice.db s') (SigningRoot ext b) = true
    ∧ kv.State (forkchoice.db s') (SigningRoot ext b) = Some postState.
Proof.
  intros H.
  destruct (OnBlock_cases ext fuel now b s)
    as [(e & _ & He)|(pre & post & _ & Hpre & Hpost & Hok)].
  - rewrite He in H. discriminate.
  - rewrite Hok in H. inversion H; subst s'.
    exists pre, post. split; [by apply verifyBlkPreState_ok|]. split; [done|].
    rewrite accepted_db. split.
    + unfold kv.HasBlock, kv.SaveState; simpl. apply HasBlock_SaveBlock.
    + apply lookup_insert_eq.
Qed.

Lemma OnBlock_success_persists_witness :
  let run := scenario.receive scenario.blockA scenario.atGenesis in
  run.1 = Ok tt
  ∧ ∃ preState postState,
      kv.State (forkchoice.db scenario.atGenesis)
        (ToBytes32 (ethpb.ParentRoot scenario.blockA)) = Some preState
      ∧ ExecuteStateTransition scenario.ext preState scenario.blockA = Some postState
      ∧ kv.HasBlock (forkchoice.db run.2) (SigningRoot scenario.ext scenario.blockA) = true
      ∧ kv.State (forkchoice.db run.2) (SigningRoot scenario.ext scenario.blockA)
        = Some postState.
Proof.
  split; [vm_compute; reflexivity|].
  refine (OnBlock_success_persists scenario.ext 16 2000 scenario.blockA
            (forkchoice.setDb
               (kv.SaveBlock scenario.ext scenario.blockA
                  (forkchoice.db scenario.atGenesis)) scenario.atGenesis) _ _).
  vm_compute. reflexivity.
Defined.

Lemma firstFailure_None_descendant (ext : Externals) (fuel : nat) (now : Z)
    (b : ethpb.BeaconBlock) (s : forkchoice.Store) :
  firstFailure ext fuel now b s = None →
  forkchoice.verifyBlkDescendant ext fuel s (SigningRoot ext b) (ethpb.Slot b) = Ok tt.
Proof.
  unfold firstFailure.
  destruct (forkchoice.verifyBlkPreState s b); [|discriminate].
  destruct (forkchoice.verifyBlkSlotTime _ _ _ _); [|discriminate].
  destruct (forkchoice.verifyBlkDescendant _ _ _ _ _) as [[]|]; [done|discriminate].
Qed.

(** X16: [OnBlock] looks for the block in the database before anything has
    saved it there.  When the block is not filed under its signing root,
    the root of the finalized checkpoint is neither empty nor that signing
    root, and the finalized block has a slot that is not negative, [OnBlock]
    fails and leaves the store as it was. *)
Theorem OnBlock_rejects_block_not_yet_saved (ext : Externals) (fuel : nat) (now : Z)
    (b : ethpb.BeaconBlock) (s : forkchoice.Store) :
  kv.blocksBucket (forkchoice.db s) !! ToBytes32 (SigningRoot ext b) = None →
  ethpb.Root (forkchoice.finalizedCheckpt s) ≠ EmptyString →
  ethpb.Root (forkchoice.finalizedCheckpt s) ≠ SigningRoot ext b →
  (∀ fb, kv.Block ext (forkchoice.db s)
           (ToBytes32 (ethpb.Root (forkchoice.finalizedCheckpt s))) = Ok (Some fb) →
         0 ≤ ethpb.Slot fb) →
  ∃ e, forkchoice.OnBlock ext fuel now b s = (Err e, s).
Proof.
  intros Habsent Hnonempty Hother Hslot.
  destruct (OnBlock_cases ext fuel now b s) as [(e & _ & He)|(pre & post & Hff & _)];
    [eauto|].
  exfalso. apply firstFailure_None_descendant in Hff.
  unfold forkchoice.verifyBlkDescendant in Hff.
  destruct (kv.Block ext (forkchoice.db s)
              (ToBytes32 (ethpb.Root (forkchoice.finalizedCheckpt s))))
    as [[fb|]|e] eqn:Hfb; cbn [mbind result_bind] in Hff; [| |discriminate].
  - specialize (Hslot fb eq_refl).
    destruct fuel as [|fuel]; [discriminate|].
    cbn [forkchoice.ancestor] in Hff.
    rewrite (Block_absent ext _ _ Habsent) in Hff. cbn [mbind result_bind] in Hff.
    change (ethpb.Slot ethpb.emptyBlock) with 0 in Hff.
    destruct (Z.ltb_spec 0 (ethpb.Slot fb)).
    + cbn in Hff. unfold bytesEqual in Hff.
      rewrite bool_decide_eq_false_2 in Hff by congruence. discriminate.
    + destruct (Z.eqb_spec 0 (ethpb.Slot fb)); [|lia].
      cbn in Hff. unfold bytesEqual in Hff.
      rewrite bool_decide_eq_false_2 in Hff by congruence. discriminate.
  - by apply Block_never_nil in Hfb.
Qed.

Lemma OnBlock_rejects_block_not_yet_saved_witness :
  kv.blocksBucket (forkchoice.db scenario.atGenesis)
    !! ToBytes32 (SigningRoot scenario.ext scenario.blockA) = None
  ∧ ∃ e, forkchoice.OnBlock scenario.ext 16 2000 scenario.blockA scenario.atGenesis
         = (Err e, scenario.atGenesis).
Proof.
  split; [reflexivity|].
  apply (OnBlock_rejects_block_not_yet_saved scenario.ext 16 2000 scenario.blockA
           scenario.atGenesis).
  - reflexivity.
  - vm_compute. discriminate.
  - vm_compute. discriminate.
  - intros fb Hfb. vm_compute in Hfb. inversion Hfb. simpl. lia.
Defined.

(** X17: [latestAttestingBalance] finds the justified state through
    [checkptBlkRoot], which [OnBlock] does not extend.  After an [OnBlock]
    that leaves a justified checkpoint whose hash is not in the table, with
    no state filed under the zero root, the weight of every root is 0. *)
Theorem weights_vanish_when_justified_is_not_in_table (ext : Externals) (fuel fuel' : nat)
    (now : Z) (b : ethpb.BeaconBlock) (s s' : forkchoice.Store) (r : result unit)
    (root : string) :
  forkchoice.OnBlock ext fuel now b s = (r, s') →
  forkchoice.checkptBlkRoot s !! HashProto ext (forkchoice.justifiedCheckpt s') = None →
  kv.State (forkchoice.db s') (ToBytes32 EmptyString) = None →
  forkchoice.latestAttestingBalance ext fuel' s' root = Ok 0.
Proof.
  intros Hrun Htable Hzero.
  apply OnBlock_checkpoints_never_regress in Hrun as (_ & _ & Hkept).
  apply latestAttestingBalance_no_state. rewrite Hkept, Htable. exact Hzero.
Qed.

Lemma weights_vanish_when_justified_is_not_in_table_witness :
  let before :=
    (scenario.receive scenario.blockX (scenario.receive scenario.blockA scenario.atGenesis).2).2 in
  let s :=
    forkchoice.setDb (kv.SaveBlock scenario.ext scenario.blockD (forkchoice.db before)) before in
  forkchoice.OnBlock scenario.ext 16 2000 scenario.blockD s = (Ok tt, scenario.forked)
  ∧ forkchoice.checkptBlkRoot s
      !! HashProto scenario.ext (forkchoice.justifiedCheckpt scenario.forked) = None
  ∧ kv.State (forkchoice.db scenario.forked) (ToBytes32 EmptyString) = None
  ∧ forkchoice.latestAttestingBalance scenario.ext 16 scenario.forked
      (scenario.exSigningRoot scenario.blockD) = Ok 0.
Proof.
  intros before s.
  assert (forkchoice.OnBlock scenario.ext 16 2000 scenario.blockD s
          = (Ok tt, scenario.forked)) as Hrun by (vm_compute; reflexivity).
  assert (forkchoice.checkptBlkRoot s
            !! HashProto scenario.ext (forkchoice.justifiedCheckpt scenario.forked) = None)
    as Htable by (vm_compute; reflexivity).
  assert (kv.State (forkchoice.db scenario.forked) (ToBytes32 EmptyString) = None)
    as Hzero by (vm_compute; reflexivity).
  split; [exact Hrun|]. split; [exact Htable|]. split; [exact Hzero|].
  exact (weights_vanish_when_justified_is_not_in_table scenario.ext 16 16 2000
           scenario.blockD s scenario.forked (Ok tt) _ Hrun Htable Hzero).
Defined.

(** * Further properties of gossip validation *)

Lemma validateProposerSlashing_outcomes (o : sync.Oracles)
    (headState : option pb.BeaconState) (broadcastOk : bool) (msg : sync.Message)
    (w w1 : sync.World) (verdict : bool) :
  sync.validateProposerSlashing o headState broadcastOk msg w = (verdict, w1) →
  (verdict = false ∧ w1 = w)
  ∨ (∃ slashing cacheKey state,
       msg = sync.MsgProposerSlashing slashing
       ∧ sync.HashSlashing o slashing = Some cacheKey
       ∧ headState = Some state
       ∧ sync.cacheHas (sync.invalid o ++ cacheKey) w = false
       ∧ sync.cacheHas cacheKey w = false
       ∧ ((verdict = false
           ∧ sync.VerifyProposerSlashing o state slashing = false
           ∧ sync.seenProposerSlashings w1
             = <[(sync.invalid o ++ cacheKey)%string := true]> (sync.seenProposerSlashings w)
           ∧ sync.trace w1 = sync.trace w ++ [sync.EvVerify slashing])
          ∨ (verdict = true
             ∧ sync.VerifyProposerSlashing o state slashing = true
             ∧ sync.seenProposerSlashings w1
               = <[cacheKey := true]> (sync.seenProposerSlashings w)
             ∧ sync.trace w1
               = sync.trace w ++ [sync.EvVerify slashing; sync.EvBroadcast slashing]
                   ++ (if broadcastOk then [] else [sync.EvLogBroadcastFailure])))).
Proof.
  unfold sync.validateProposerSlashing, sync.propSlashingCacheKey.
  destruct msg as [slashing|]; [|intros H; inversion H; by left].
  destruct (sync.HashSlashing o slashing) as [cacheKey|] eqn:Hkey;
    [|intros H; inversion H; by left].
  cbv zeta.
  destruct (sync.cacheHas (sync.invalid o ++ cacheKey) w) eqn:Hinv;
    [intros H; inversion H; by left|].
  destruct (sync.cacheHas cacheKey w) eqn:Hseen; [intros H; inversion H; by left|].
  destruct headState as [state|]; [|intros H; inversion H; by left].
  destruct (sync.VerifyProposerSlashing o state slashing) eqn:Hverify; simpl.
  - destruct broadcastOk; intros H; inversion H; subst; right;
      exists slashing, cacheKey, state; repeat split; try done; right; simpl;
      repeat split; by rewrite <- ?app_assoc.
  - intros H; inversion H; subst; right.
    exists slashing, cacheKey, state. repeat split; try done. left. done.
Qed.

Lemma eventsOf_app (w w1 : sync.World) (events : list sync.Event) :
  sync.trace w1 = sync.trace w ++ events → eventsOf w w1 = events.
Proof. intros H. unfold eventsOf. rewrite H. apply drop_app_length. Qed.

Lemma eventsOf_same (w : sync.World) : eventsOf w w = [].
Proof. unfold eventsOf. apply drop_all. Qed.

(** X18: a call of [validateProposerSlashing] that ran the predicate and
    did not broadcast returned false, and every later call on the same
    slashing, made while the cache still holds what it held, returns false
    and leaves the process as it was: the predicate is not run again. *)
Theorem invalid_slashing_is_not_verified_again (o : sync.Oracles)
    (slashing : ethpb.ProposerSlashing)
    (headState headState2 : option pb.BeaconState) (broadcastOk broadcastOk2 : bool)
    (w w1 w2 : sync.World) (verdict : bool) :
  sync.validateProposerSlashing o headState broadcastOk
    (sync.MsgProposerSlashing slashing) w = (verdict, w1) →
  eventsOf w w1 = [sync.EvVerify slashing] →
  sync.seenProposerSlashings w1 ⊆ sync.seenProposerSlashings w2 →
  verdict = false
  ∧ sync.validateProposerSlashing o headState2 broadcastOk2
      (sync.MsgProposerSlashing slashing) w2 = (false, w2).
Proof.
  intros Hrun Hevents Hkept.
  destruct (validateProposerSlashing_outcomes o _ _ _ _ _ _ Hrun)
    as [[_ ->]|(sl & cacheKey & state & Hmsg & Hkey & _ & _ & _ & Hcase)].
  - rewrite eventsOf_same in Hevents. discriminate.
  - inversion Hmsg; subst sl.
    destruct Hcase as [(-> & _ & Hcache & _)|(_ & _ & _ & Htrace)].
    + split; [done|].
      unfold sync.validateProposerSlashing, sync.propSlashingCacheKey.
      rewrite Hkey. cbv zeta.
      assert (sync.cacheHas (sync.invalid o ++ cacheKey) w2 = true) as ->; [|done].
      unfold sync.cacheHas. apply bool_decide_eq_true_2. exists true.
      eapply lookup_weaken; [|exact Hkept]. rewrite Hcache. apply lookup_insert_eq.
    + rewrite (eventsOf_app _ _ _ Htrace) in Hevents. discriminate.
Qed.

Lemma invalid_slashing_is_not_verified_again_witness :
  let strictOracles :=
    {| sync.HashSlashing := sync.HashSlashing scenario.oracles;
       sync.VerifyProposerSlashing := fun _ _ => false;
       sync.invalid := sync.invalid scenario.oracles |} in
  let first :=
    sync.validateProposerSlashing strictOracles (Some scenario.genesisState) true
      (sync.MsgProposerSlashing scenario.slashingX) scenario.unseen in
  eventsOf scenario.unseen first.2 = [sync.EvVerify scenario.slashingX]
  ∧ first.1 = false
  ∧ sync.validateProposerSlashing strictOracles (Some scenario.genesisState) true
      (sync.MsgProposerSlashing scenario.slashingX) first.2 = (false, first.2).
Proof.
  intros strictOracles first.
  assert (eventsOf scenario.unseen first.2 = [sync.EvVerify scenario.slashingX]) as Hevents
    by reflexivity.
  split; [exact Hevents|].
  apply (invalid_slashing_is_not_verified_again strictOracles scenario.slashingX
           (Some scenario.genesisState) (Some scenario.genesisState) true true
           scenario.unseen first.2 first.2 first.1).
  - apply surjective_pairing.
  - exact Hevents.
  - done.
Defined.

(** X19: [validateProposerSlashing] calls the Broadcaster only for the
    slashing it was handed, only after the predicate held for it against
    the head state, and only in a call that returns true. *)
Theorem broadcast_only_of_verified_slashing (o : sync.Oracles)
    (headState : option pb.BeaconState) (broadcastOk : bool) (msg : sync.Message)
    (w w1 : sync.World) (verdict : bool) (slashing : ethpb.ProposerSlashing) :
  sync.validateProposerSlashing o headState broadcastOk msg w = (verdict, w1) →
  sync.EvBroadcast slashing ∈ eventsOf w w1 →
  verdict = true
  ∧ msg = sync.MsgProposerSlashing slashing
  ∧ ∃ state, headState = Some state ∧ sync.VerifyProposerSlashing o state slashing = true.
Proof.
  intros Hrun Hin.
  destruct (validateProposerSlashing_outcomes o _ _ _ _ _ _ Hrun)
    as [[_ ->]|(sl & cacheKey & state & Hmsg & _ & Hstate & _ & _ & Hcase)].
  - rewrite eventsOf_same in Hin. by apply elem_of_nil in Hin.
  - destruct Hcase as [(_ & _ & _ & Htrace)|(-> & Hverify & _ & Htrace)];
      rewrite (eventsOf_app _ _ _ Htrace) in Hin.
    + apply list_elem_of_singleton in Hin. discriminate.
    + assert (sl = slashing) as ->.
      { apply elem_of_cons in Hin as [Heq|Hin]; [discriminate|].
        apply elem_of_cons in Hin as [Heq|Hin]; [congruence|].
        destruct broadcastOk; [by apply elem_of_nil in Hin|].
        apply list_elem_of_singleton in Hin. discriminate. }
      eauto.
Qed.

Lemma broadcast_only_of_verified_slashing_witness :
  let first :=
    sync.validateProposerSlashing scenario.oracles (Some scenario.genesisState) true
      (sync.MsgProposerSlashing scenario.slashingX) scenario.unseen in
  sync.EvBroadcast scenario.slashingX ∈ eventsOf scenario.unseen first.2
  ∧ first.1 = true.
Proof.
  intros first.
  assert (sync.EvBroadcast scenario.slashingX ∈ eventsOf scenario.unseen first.2) as Hin
    by (apply list_elem_of_further, list_elem_of_here).
  split; [exact Hin|].
  refine (proj1 (broadcast_only_of_verified_slashing scenario.oracles
                   (Some scenario.genesisState) true
                   (sync.MsgProposerSlashing scenario.slashingX)
                   scenario.unseen first.2 first.1 scenario.slashingX _ Hin)).
  apply surjective_pairing.
Defined.

(** X20: a call of [validateProposerSlashing] never removes an entry of the
    seen-cache, and when the head state cannot be fetched it changes
    nothing: the verdict is false, no key is cached and nothing is run. *)
Theorem validateProposerSlashing_cache_grows (o : sync.Oracles)
    (headState : option pb.BeaconState) (broadcastOk : bool) (msg : sync.Message)
    (w w1 : sync.World) (verdict : bool) :
  sync.validateProposerSlashing o headState broadcastOk msg w = (verdict, w1) →
  sync.seenProposerSlashings w ⊆ sync.seenProposerSlashings w1
  ∧ (headState = None → verdict = false ∧ w1 = w).
Proof.
  intros Hrun.
  destruct (validateProposerSlashing_outcomes o _ _ _ _ _ _ Hrun)
    as [[-> ->]|(sl & cacheKey & state & _ & _ & Hstate & Hinv & Hseen & Hcase)].
  - split; [done|]. intros _. done.
  - split; [|intros Hnone; congruence].
    unfold sync.cacheHas in Hinv, Hseen.
    apply bool_decide_eq_false in Hinv. apply bool_decide_eq_false in Hseen.
    rewrite <- eq_None_not_Some in Hinv. rewrite <- eq_None_not_Some in Hseen.
    destruct Hcase as [(_ & _ & -> & _)|(_ & _ & -> & _)]; by apply insert_subseteq.
Qed.

Lemma validateProposerSlashing_cache_grows_witness :
  let first :=
    sync.validateProposerSlashing scenario.oracles (Some scenario.genesisState) true
      (sync.MsgProposerSlashing scenario.slashingX) scenario.unseen in
  first.1 = true
  ∧ sync.seenProposerSlashings scenario.unseen ⊆ sync.seenProposerSlashings first.2.
Proof.
  intros first. split; [reflexivity|].
  refine (proj1 (validateProposerSlashing_cache_grows scenario.oracles
                   (Some scenario.genesisState) true
                   (sync.MsgProposerSlashing scenario.slashingX)
                   scenario.unseen first.2 first.1 _)).
  apply surjective_pairing.
Defined.

(** * Properties of the canonical roots *)

(** X21: after [UpdateCanonicalRoots] of a head, a hash is canonical at the
    slot of the head exactly when it is the new head root, whatever root was
    canonical there before, and what [IsCanonical] answers at any other slot
    is what it answered before. *)
Theorem UpdateCanonicalRoots_then_IsCanonical (newHead : ethpb.BeaconBlock)
    (newHeadRoot : string) (canonicalRoots : gmap Z string)
    (slot : Z) (hash : string) :
  (blockchain.IsCanonical
     (blockchain.UpdateCanonicalRoots newHead newHeadRoot canonicalRoots)
     (ethpb.Slot newHead) hash = true ↔ hash = newHeadRoot)
  ∧ (slot ≠ ethpb.Slot newHead →
     blockchain.IsCanonical
       (blockchain.UpdateCanonicalRoots newHead newHeadRoot canonicalRoots) slot hash
     = blockchain.IsCanonical canonicalRoots slot hash).
Proof.
  unfold blockchain.IsCanonical, blockchain.UpdateCanonicalRoots. split.
  - rewrite lookup_insert_eq. unfold bytesEqual. rewrite bool_decide_eq_true.
    split; congruence.
  - intros Hne. by rewrite lookup_insert_ne.
Qed.

Lemma UpdateCanonicalRoots_then_IsCanonical_witness :
  1 ≠ ethpb.Slot scenario.blockA
  ∧ blockchain.IsCanonical
      (blockchain.UpdateCanonicalRoots scenario.blockA "a" ({[ 1 := "one"%string ]} : gmap Z string)) 1 "one"
    = blockchain.IsCanonical ({[ 1 := "one"%string ]} : gmap Z string) 1 "one".
Proof.
  assert (1 ≠ ethpb.Slot scenario.blockA) as Hne by (simpl; lia).
  split; [exact Hne|].
  exact (proj2 (UpdateCanonicalRoots_then_IsCanonical scenario.blockA "a"
                  ({[ 1 := "one"%string ]} : gmap Z string) 1 "one") Hne).
Defined.

(** * Properties of the network encoding *)

Lemma below_128 (P : Z → bool) :
  forallb P (map Z.of_nat (seq 0 128)) = true → ∀ r, 0 ≤ r < 128 → P r = true.
Proof.
  intros Hall r Hr. rewrite forallb_forall in Hall. apply Hall.
  apply in_map_iff. exists (Z.to_nat r). split; [lia|].
  apply in_seq. lia.
Qed.

Lemma lor_128 (r : Z) : 0 ≤ r < 128 → Z.lor 128 r = 128 + r.
Proof.
  intros Hr. apply Z.eqb_eq.
  apply (below_128 (fun r => Z.lor 128 r =? 128 + r)); [vm_compute; reflexivity|done].
Qed.

Lemma land_127 (r : Z) : 0 ≤ r < 128 → Z.land (128 + r) 127 = r.
Proof.
  intros Hr. apply Z.eqb_eq.
  apply (below_128 (fun r => Z.land (128 + r) 127 =? r)); [vm_compute; reflexivity|done].
Qed.

Lemma valueOf_byteOf (v : Z) : 0 ≤ v < 256 → encoder.valueOf (encoder.byteOf v) = v.
Proof.
  intros Hv. unfold encoder.valueOf, encoder.byteOf.
  rewrite Ascii.N_ascii_embedding by lia. lia.
Qed.

Lemma append_cons (c : Ascii.ascii) (s r : string) :
  (String c s ++ r)%string = String c (s ++ r)%string.
Proof. reflexivity. Qed.

Lemma append_empty (r : string) : (EmptyString ++ r)%string = r.
Proof. reflexivity. Qed.

Lemma readVarintLoop_last (n : nat) (c : Ascii.ascii) (rest : string) :
  encoder.valueOf c < 128 →
  encoder.readVarintLoop (S n) (String c rest) = inr (encoder.valueOf c, rest).
Proof.
  intros H. cbn [encoder.readVarintLoop].
  destruct (Z.ltb_spec (encoder.valueOf c) 128); [done|lia].
Qed.

Lemma readVarintLoop_more (n : nat) (c : Ascii.ascii) (rest : string) :
  128 ≤ encoder.valueOf c →
  encoder.readVarintLoop (S n) (String c rest)
  = match encoder.readVarintLoop n rest with
    | inl e => inl e
    | inr (v, rest') => inr (Z.land (encoder.valueOf c) 127 + Z.shiftl v 7, rest')
    end.
Proof.
  intros H. cbn [encoder.readVarintLoop].
  destruct (Z.ltb_spec (encoder.valueOf c) 128); [lia|done].
Qed.

Lemma encodeVarintLoop_S (n : nat) (x : Z) :
  encoder.encodeVarintLoop (S n) x
  = if 127 <? x
    then String (encoder.byteOf (Z.lor 128 (Z.land x 127)))
           (encoder.encodeVarintLoop n (Z.shiftr x 7))
    else String (encoder.byteOf x) EmptyString.
Proof. reflexivity. Qed.

Lemma readVarintLoop_encodeVarintLoop (n : nat) (x : Z) (rest : string) :
  0 ≤ x < 2 ^ (7 * Z.of_nat (S n)) →
  encoder.readVarintLoop (S n) (encoder.encodeVarintLoop (S n) x ++ rest)%string
  = inr (x, rest).
Proof.
  revert x. induction n as [|n IH]; intros x Hx.
  - change (2 ^ (7 * Z.of_nat 1)) with 128 in Hx.
    rewrite encodeVarintLoop_S.
    destruct (Z.ltb_spec 127 x); [lia|].
    rewrite append_cons, append_empty.
    rewrite readVarintLoop_last by (rewrite valueOf_byteOf; lia).
    by rewrite valueOf_byteOf by lia.
  - rewrite (encodeVarintLoop_S (S n)).
    destruct (Z.ltb_spec 127 x) as [Hbig|Hsmall].
    + assert (Z.land x 127 = x mod 128) as Hland by apply (Z.land_ones x 7 ltac:(lia)).
      assert (0 ≤ x mod 128 < 128) as Hmod by (apply Z.mod_pos_bound; lia).
      rewrite Hland, lor_128 by done.
      rewrite Z.shiftr_div_pow2 by lia. change (2 ^ 7) with 128.
      rewrite append_cons.
      rewrite readVarintLoop_more by (rewrite valueOf_byteOf; lia).
      rewrite valueOf_byteOf by lia.
      rewrite IH.
      * rewrite land_127 by done. rewrite Z.shiftl_mul_pow2 by lia.
        change (2 ^ 7) with 128.
        f_equal. f_equal. pose proof (Z.div_mod x 128). lia.
      * split; [apply Z.div_pos; lia|].
        apply Z.div_lt_upper_bound; [lia|].
        replace (7 * Z.of_nat (S (S n))) with (7 + 7 * Z.of_nat (S n)) in Hx by lia.
        rewrite Z.pow_add_r in Hx by lia. change (2 ^ 7) with 128 in Hx. lia.
    + rewrite append_cons, append_empty.
      rewrite readVarintLoop_last by (rewrite valueOf_byteOf; lia).
      by rewrite valueOf_byteOf by lia.
Qed.

(** The length prefix written by [EncodeVarint] is read back by
    [readVarint], which leaves the reader right after it. *)
Lemma readVarint_EncodeVarint (x : Z) (rest : string) :
  0 ≤ x < 2 ^ 64 →
  encoder.readVarint (encoder.EncodeVarint x ++ rest)%string = inr (x, rest).
Proof.
  intros Hx. unfold encoder.readVarint, encoder.EncodeVarint, encoder.maxVarintLength.
  rewrite readVarintLoop_encodeVarintLoop.
  - unfold u64. by rewrite Z.mod_small.
  - split; [lia|]. eapply Z.lt_le_trans; [apply Hx|].
    apply Z.pow_le_mono_r; lia.
Qed.

Lemma padTo_prefix (body more : string) :
  padTo (String.length body) (body ++ more)%string = body.
Proof.
  induction body as [|c body IH]; [done|].
  rewrite append_cons. cbn [String.length padTo]. by rewrite IH.
Qed.

Lemma string_app_assoc (a b c : string) :
  ((a ++ b) ++ c)%string = (a ++ (b ++ c))%string.
Proof. induction a as [|x a IH]; [done|]. rewrite !append_cons. by rewrite IH. Qed.

(** X22: what [Encode] writes for a message is decoded back to it by
    [Decode] with the same compression setting, from a reader that holds the
    written bytes followed by any others, when the serializer and the
    compressor invert on the message, the body is not empty and its length
    fits a [uint64]. *)
Theorem Decode_Encode {Msg : Type} (c : encoder.Codec Msg) (UseSnappyCompression : bool)
    (msg : Msg) (raw more : string) :
  encoder.sszMarshal c msg = Some raw →
  encoder.sszUnmarshal c raw = Some msg →
  encoder.snappyDecode c (encoder.snappyEncode c raw) = Some raw →
  (if UseSnappyCompression then encoder.snappyEncode c raw else raw) ≠ EmptyString →
  Z.of_nat (String.length
              (if UseSnappyCompression then encoder.snappyEncode c raw else raw)) < 2 ^ 64 →
  ∃ wire,
    encoder.Encode c UseSnappyCompression (Some msg) = Some wire
    ∧ encoder.Decode c UseSnappyCompression (wire ++ more)%string = inr msg.
Proof.
  intros Hmarshal Hunmarshal Hsnappy Hnonempty Hlen.
  unfold encoder.Encode. rewrite Hmarshal.
  set (body := if UseSnappyCompression then encoder.snappyEncode c raw else raw) in *.
  eexists. split; [reflexivity|].
  unfold encoder.Decode. rewrite string_app_assoc.
  rewrite readVarint_EncodeVarint by lia.
  unfold encoder.readInto.
  destruct (body ++ more)%string as [|ch tail] eqn:Hwhole.
  { destruct body; [done|discriminate]. }
  rewrite <- Hwhole. rewrite Nat2Z.id, padTo_prefix.
  subst body. destruct UseSnappyCompression.
  - rewrite Hsnappy. by rewrite Hunmarshal.
  - by rewrite Hunmarshal.
Qed.

Lemma Decode_Encode_witness :
  encoder.sszMarshal scenario.framing "hello"%string = Some "hello"%string
  ∧ ∃ wire,
      encoder.Encode scenario.framing true (Some "hello"%string) = Some wire
      ∧ encoder.Decode scenario.framing true (wire ++ "tail")%string = inr "hello"%string.
Proof.
  split; [reflexivity|].
  apply (Decode_Encode scenario.framing true "hello"%string "hello"%string "tail"%string).
  - reflexivity.
  - reflexivity.
  - reflexivity.
  - discriminate.
  - vm_compute. reflexivity.
Defined.
